(** * ConfidentialCast: the settlement state machine

    A shallow embedding of [contracts/ConfidentialCast.sol] and the proofs of
    its specification.

    Conventions of the embedding.
    - Solidity's unsigned integers ([uint8], [uint64], [uint256]) and
      addresses are values of [N]; the only arithmetic of the contract that can
      leave its type is the encrypted addition [FHE.add] on [euint64], whose
      wrap-around modulo [2^64] is written out, and the cast [uint64(msg.value)],
      written as a reduction modulo [2^64].
    - An encrypted handle ([euint64], [euint8], [ebool]) is represented by the
      cleartext it decrypts to, which is how the decryption workflow (and the
      mock coprocessor of the test-suite) observes it.  The FHE library is an
      external dependency of the contract; its operations are given their
      cleartext meaning in [Module FHE].
    - A Solidity [mapping] is a finite map ([gmap]) read with the type's zero
      value as default.
    - A function body is a computation in the monad [M]: it threads the
      contract storage, collects the emitted events, and stops at the first
      [revert].  A reverted computation still exposes the storage it had
      reached, so that "no write happens before a revert" is a theorem about
      the code and not a convention of the model.  [execute] adds the EVM's
      transaction semantics on top (a reverted call leaves storage as it was).
    - A transaction is a call that reaches the body of one of the four
      state-changing entry points.  Arguments and [msg.value] range over [N];
      [msg.value] is read by [submitPrediction] only, the one payable function.
    - [reachable] admits every sequence of calls after a deployment, whatever
      the block timestamps; the histories used as examples are chronological. *)

From stdpp Require Import base numbers option list gmap.
From Stdlib Require Import NArith Lia.

Open Scope N_scope.

(** ** Solidity value types *)

Abbreviation address := N (only parsing).
Abbreviation uint8   := N (only parsing).
Abbreviation uint64  := N (only parsing).
Abbreviation uint256 := N (only parsing).

(** [type(uint64).max] *)
Definition uint64_max : N := 2 ^ 64 - 1.

(** [address(0)] *)
Definition address_zero : N := 0.

(** [1 days], in seconds *)
Definition one_days : N := 86400.

(** ** The FHE library, by its cleartext semantics *)

Abbreviation euint64 := N (only parsing).
Abbreviation euint8  := N (only parsing).
Abbreviation ebool   := bool (only parsing).

(** Client-side ciphertexts: the cleartext they carry. *)
Abbreviation externalEuint64 := N (only parsing).
Abbreviation externalEuint8  := N (only parsing).

(** [bytes calldata inputProof]: what matters of the proof is whether the
    input verifier accepts it for the accompanying handles. *)
Abbreviation inputProof := bool (only parsing).

Module FHE.

Definition asEuint64 (v : uint64) : euint64 := v.
Definition asEuint8 (v : uint8) : euint8 := v.

Definition gt (a b : N) : ebool := b <? a.
Definition lt (a b : N) : ebool := a <? b.
Definition eq (a b : N) : ebool := a =? b.
Definition and (a b : ebool) : ebool := a && b.
Definition or (a b : ebool) : ebool := a || b.
Definition select (c : ebool) (a b : euint64) : euint64 := if c then a else b.

(** Encrypted addition on [euint64] is unchecked: it wraps modulo [2^64]. *)
Definition add (a b : euint64) : euint64 := (a + b) mod 2 ^ 64.

(** An uninitialised (zero) handle is replaced by an encryption of [0]
    before it enters an operation. *)
Definition initialized (h : option euint64) : euint64 := default 0 h.

(** [FHE.fromExternal]: [None] when the proof is rejected (the library
    reverts), the admitted value otherwise. *)
Definition fromExternal (input : N) (proof : inputProof) : option N :=
  if proof then Some input else None.

End FHE.

(** ** Data model *)

Module Prediction.
Record t := mk {
  price : euint64;
  direction : euint8;
  stake : uint64;
  submittedAt : uint256;
  claimed : bool
}.

(** The value of a storage slot that was never written. *)
Definition zero : t := mk 0 0 0 0 false.

Definition set_price (v : euint64) (p : t) : t :=
  mk v (direction p) (stake p) (submittedAt p) (claimed p).
Definition set_direction (v : euint8) (p : t) : t :=
  mk (price p) v (stake p) (submittedAt p) (claimed p).
Definition set_stake (v : uint64) (p : t) : t :=
  mk (price p) (direction p) v (submittedAt p) (claimed p).
Definition set_submittedAt (v : uint256) (p : t) : t :=
  mk (price p) (direction p) (stake p) v (claimed p).
Definition set_claimed (v : bool) (p : t) : t :=
  mk (price p) (direction p) (stake p) (submittedAt p) v.
End Prediction.

Module DailyPrice.
Record t := mk {
  price : uint64;
  timestamp : uint256
}.

Definition zero : t := mk 0 0.
End DailyPrice.

(** The contract's storage: two scalars and four mappings. *)
Record Storage := mkStorage {
  owner : address;
  lastPriceDay : uint256;
  _dailyPrices : gmap N DailyPrice.t;
  _predictions : gmap (N * N) Prediction.t;
  _points : gmap N N;
  _lastResult : gmap N bool
}.

Inductive Event :=
| PriceUpdated (day : uint256) (price : uint64) (timestamp : uint256)
| PredictionSubmitted (user : address) (day : uint256) (stake : uint64) (timestamp : uint256)
| PredictionConfirmed (user : address) (day : uint256) (stake : uint64)
| OwnerTransferred (previousOwner newOwner : address).

Inductive Error :=
| OnlyOwner
| InvalidOwner
| PriceAlreadyUpdated
| InvalidPrice
| StakeRequired
| StakeTooLarge
| PredictionExists
| PredictionMissing
| PredictionAlreadyClaimed
| ConfirmationTooEarly
| PriceNotAvailable
| InputVerificationFailed (* raised inside [FHE.fromExternal], not by the contract *).

(** What a call sees of its transaction and block. *)
Record Context := mkContext {
  msg_sender : address;
  msg_value : uint256;
  block_timestamp : uint256
}.

(** ** Storage access *)

(** [_dailyPrices[day]] *)
Definition dailyPrices_at (s : Storage) (day : uint256) : DailyPrice.t :=
  default DailyPrice.zero (_dailyPrices s !! day).

(** [_predictions[user][day]]; a storage pointer to it is the key [(user, day)]. *)
Definition predictions_at (s : Storage) (ptr : N * N) : Prediction.t :=
  default Prediction.zero (_predictions s !! ptr).

Definition set_owner (v : address) (s : Storage) : Storage :=
  mkStorage v (lastPriceDay s) (_dailyPrices s) (_predictions s) (_points s) (_lastResult s).

Definition set_lastPriceDay (v : uint256) (s : Storage) : Storage :=
  mkStorage (owner s) v (_dailyPrices s) (_predictions s) (_points s) (_lastResult s).

Definition set_dailyPrices (day : uint256) (v : DailyPrice.t) (s : Storage) : Storage :=
  mkStorage (owner s) (lastPriceDay s) (<[day := v]> (_dailyPrices s))
            (_predictions s) (_points s) (_lastResult s).

(** A write to one field of the struct behind a storage pointer. *)
Definition update_prediction (ptr : N * N) (f : Prediction.t → Prediction.t)
    (s : Storage) : Storage :=
  mkStorage (owner s) (lastPriceDay s) (_dailyPrices s)
            (<[ptr := f (predictions_at s ptr)]> (_predictions s))
            (_points s) (_lastResult s).

Definition set_points (user : address) (v : euint64) (s : Storage) : Storage :=
  mkStorage (owner s) (lastPriceDay s) (_dailyPrices s) (_predictions s)
            (<[user := v]> (_points s)) (_lastResult s).

Definition set_lastResult (user : address) (v : ebool) (s : Storage) : Storage :=
  mkStorage (owner s) (lastPriceDay s) (_dailyPrices s) (_predictions s)
            (_points s) (<[user := v]> (_lastResult s)).

(** ** The execution monad *)

Inductive Outcome (A : Type) :=
| Done (a : A) (s : Storage) (log : list Event)
| Reverted (e : Error) (s : Storage).
Arguments Done {A} a s log.
Arguments Reverted {A} e s.

Definition M (A : Type) : Type := Storage → Outcome A.

Definition ret {A} (a : A) : M A := fun s => Done a s [].

Definition bind {A B} (m : M A) (k : A → M B) : M B := fun s =>
  match m s with
  | Done a s1 l1 =>
      match k a s1 with
      | Done b s2 l2 => Done b s2 (l1 ++ l2)
      | Reverted e s2 => Reverted e s2
      end
  | Reverted e s1 => Reverted e s1
  end.

Notation "x <- m ;; k" := (bind m (fun x => k))
  (at level 100, m at next level, right associativity, only parsing).
Notation "m ;;; k" := (bind m (fun _ => k))
  (at level 100, right associativity, only parsing).

Definition revert {A} (e : Error) : M A := fun s => Reverted e s.
Definition sload {A} (f : Storage → A) : M A := fun s => Done (f s) s [].
Definition sstore (f : Storage → Storage) : M unit := fun s => Done tt (f s) [].
Definition emit (ev : Event) : M unit := fun s => Done tt s [ev].

(** [if (c) { m }] *)
Definition when (c : bool) (m : M unit) : M unit := if c then m else ret tt.

(** A library call that may revert on its own. *)
Definition external {A} (r : option A) : M A :=
  match r with
  | Some a => ret a
  | None => revert InputVerificationFailed
  end.

(** [FHE.allowThis] and [FHE.allow] record a grant in the access-control list
    of the FHE coprocessor; they do not touch the contract's storage. *)
Definition FHE_allowThis {A} (_ : A) : M unit := ret tt.
Definition FHE_allow {A} (_ : A) (_ : address) : M unit := ret tt.

(** ** The contract *)

Definition constructor (ctx : Context) : Storage :=
  mkStorage (msg_sender ctx) 0 ∅ ∅ ∅ ∅.

Definition onlyOwner (ctx : Context) : M unit :=
  o <- sload owner ;;
  when (negb (msg_sender ctx =? o)) (revert OnlyOwner).

Definition transferOwnership (ctx : Context) (newOwner : address) : M unit :=
  onlyOwner ctx ;;;
  when (newOwner =? address_zero) (revert InvalidOwner) ;;;
  o <- sload owner ;;
  emit (OwnerTransferred o newOwner) ;;;
  sstore (set_owner newOwner).

Definition getCurrentDay (ctx : Context) : uint256 :=
  block_timestamp ctx / one_days.

Definition updateDailyPrice (ctx : Context) (price : uint64) : M unit :=
  onlyOwner ctx ;;;
  when (price =? 0) (revert InvalidPrice) ;;;
  let day := getCurrentDay ctx in
  last <- sload lastPriceDay ;;
  when (day <=? last) (revert PriceAlreadyUpdated) ;;;
  sstore (set_dailyPrices day (DailyPrice.mk price (block_timestamp ctx))) ;;;
  sstore (set_lastPriceDay day) ;;;
  emit (PriceUpdated day price (block_timestamp ctx)).

Definition submitPrediction (ctx : Context) (predictedPriceInput : externalEuint64)
    (directionInput : externalEuint8) (proof : inputProof) : M unit :=
  when (msg_value ctx =? 0) (revert StakeRequired) ;;;
  when (uint64_max <? msg_value ctx) (revert StakeTooLarge) ;;;
  let day := getCurrentDay ctx in
  let prediction := (msg_sender ctx, day) in
  existing <- sload (fun s => Prediction.stake (predictions_at s prediction)) ;;
  when (negb (existing =? 0)) (revert PredictionExists) ;;;
  predictedPrice <- external (FHE.fromExternal predictedPriceInput proof) ;;
  direction <- external (FHE.fromExternal directionInput proof) ;;
  sstore (update_prediction prediction (Prediction.set_price predictedPrice)) ;;;
  sstore (update_prediction prediction (Prediction.set_direction direction)) ;;;
  sstore (update_prediction prediction (Prediction.set_stake (msg_value ctx mod 2 ^ 64))) ;;;
  sstore (update_prediction prediction (Prediction.set_submittedAt (block_timestamp ctx))) ;;;
  sstore (update_prediction prediction (Prediction.set_claimed false)) ;;;
  FHE_allowThis predictedPrice ;;;
  FHE_allow predictedPrice (msg_sender ctx) ;;;
  FHE_allowThis direction ;;;
  FHE_allow direction (msg_sender ctx) ;;;
  emit (PredictionSubmitted (msg_sender ctx) day (msg_value ctx mod 2 ^ 64)
          (block_timestamp ctx)).

Definition _checkPrediction (prediction : N * N) (price : uint64) : M ebool :=
  p <- sload (fun s => predictions_at s prediction) ;;
  let actualPrice := FHE.asEuint64 price in
  let isGreater := FHE.gt actualPrice (Prediction.price p) in
  let isLess := FHE.lt actualPrice (Prediction.price p) in
  let wantsGreater := FHE.eq (Prediction.direction p) (FHE.asEuint8 1) in
  let wantsLess := FHE.eq (Prediction.direction p) (FHE.asEuint8 2) in
  ret (FHE.or (FHE.and wantsGreater isGreater) (FHE.and wantsLess isLess)).

Definition _calculateReward (stake : uint64) (didWin : ebool) : M euint64 :=
  ret (FHE.select didWin (FHE.asEuint64 stake) (FHE.asEuint64 0)).

Definition confirmPrediction (ctx : Context) (day : uint256) : M unit :=
  let prediction := (msg_sender ctx, day) in
  p <- sload (fun s => predictions_at s prediction) ;;
  when (Prediction.stake p =? 0) (revert PredictionMissing) ;;;
  when (Prediction.claimed p) (revert PredictionAlreadyClaimed) ;;;
  when (getCurrentDay ctx <=? day) (revert ConfirmationTooEarly) ;;;
  record <- sload (fun s => dailyPrices_at s day) ;;
  when (DailyPrice.timestamp record =? 0) (revert PriceNotAvailable) ;;;
  didWin <- _checkPrediction prediction (DailyPrice.price record) ;;
  awarded <- _calculateReward (Prediction.stake p) didWin ;;
  points <- sload (fun s => _points s !! msg_sender ctx) ;;
  sstore (set_points (msg_sender ctx) (FHE.add (FHE.initialized points) awarded)) ;;;
  sstore (set_lastResult (msg_sender ctx) didWin) ;;;
  sstore (update_prediction prediction (Prediction.set_claimed true)) ;;;
  newPoints <- sload (fun s => _points s !! msg_sender ctx) ;;
  FHE_allowThis newPoints ;;;
  FHE_allow newPoints (msg_sender ctx) ;;;
  FHE_allowThis didWin ;;;
  FHE_allow didWin (msg_sender ctx) ;;;
  stake <- sload (fun s => Prediction.stake (predictions_at s prediction)) ;;
  emit (PredictionConfirmed (msg_sender ctx) day stake).

(** *** Read accessors *)

Definition getDailyPrice (s : Storage) (day : uint256) : uint64 * uint256 :=
  let record := dailyPrices_at s day in
  (DailyPrice.price record, DailyPrice.timestamp record).

Definition getLatestPrice (s : Storage) : uint256 * uint64 * uint256 :=
  let record := dailyPrices_at s (lastPriceDay s) in
  (lastPriceDay s, DailyPrice.price record, DailyPrice.timestamp record).

Definition getPredictionMetadata (s : Storage) (user : address) (day : uint256)
    : uint64 * uint256 * bool :=
  let prediction := predictions_at s (user, day) in
  (Prediction.stake prediction, Prediction.submittedAt prediction,
   Prediction.claimed prediction).

Definition getPredictionEncrypted (s : Storage) (user : address) (day : uint256)
    : euint64 * euint8 :=
  let prediction := predictions_at s (user, day) in
  (Prediction.price prediction, Prediction.direction prediction).

(** [None] is the zero handle of an account that never settled. *)
Definition getPoints (s : Storage) (user : address) : option euint64 :=
  _points s !! user.

Definition getLastResult (s : Storage) (user : address) : option ebool :=
  _lastResult s !! user.

(** The cleartext the decryption workflow shows for an account's points. *)
Definition pointsOf (s : Storage) (user : address) : N :=
  FHE.initialized (getPoints s user).

(** ** Transactions and reachable states *)

Inductive Call :=
| TransferOwnership (newOwner : address)
| UpdateDailyPrice (price : uint64)
| SubmitPrediction (predictedPriceInput : externalEuint64)
    (directionInput : externalEuint8) (proof : inputProof)
| ConfirmPrediction (day : uint256).

Definition dispatch (ctx : Context) (c : Call) : M unit :=
  match c with
  | TransferOwnership newOwner => transferOwnership ctx newOwner
  | UpdateDailyPrice price => updateDailyPrice ctx price
  | SubmitPrediction p d proof => submitPrediction ctx p d proof
  | ConfirmPrediction day => confirmPrediction ctx day
  end.

Inductive Receipt :=
| Success (log : list Event)
| Failure (e : Error).

(** One transaction: a reverted call leaves the storage as it was. *)
Definition execute (ctx : Context) (c : Call) (s : Storage) : Storage * Receipt :=
  match dispatch ctx c s with
  | Done _ s' log => (s', Success log)
  | Reverted e _ => (s, Failure e)
  end.

Definition Tx : Type := Context * Call.

(** The storage after a sequence of transactions, oldest first. *)
Fixpoint run (txs : list Tx) (s : Storage) : Storage :=
  match txs with
  | [] => s
  | (ctx, c) :: rest => run rest (execute ctx c s).1
  end.

(** Block timestamps never go back along a chain. *)
Fixpoint chronological (now : uint256) (txs : list Tx) : bool :=
  match txs with
  | [] => true
  | (ctx, _) :: rest =>
      (now <=? block_timestamp ctx) && chronological (block_timestamp ctx) rest
  end.

(** States of a deployed contract: the deployer is a real account (transactions
    are never signed by [address(0)]), and any sequence of calls follows. *)
Inductive reachable : Storage → Prop :=
| reachable_deploy ctx :
    msg_sender ctx ≠ address_zero → reachable (constructor ctx)
| reachable_step s ctx c :
    reachable s → reachable (execute ctx c s).1.

(** ** Closed forms of the successful calls

    The storage each entry point leaves when no guard fires, and the pure
    values of the two internal helpers; the equations of the next part tie
    them to the monadic code. *)

(** The storage after a successful [updateDailyPrice]. *)
Definition recorded (ctx : Context) (price : uint64) (s : Storage) : Storage :=
  set_lastPriceDay (getCurrentDay ctx)
    (set_dailyPrices (getCurrentDay ctx)
       (DailyPrice.mk price (block_timestamp ctx)) s).

(** The storage after a successful [submitPrediction]: the five field writes. *)
Definition submitted (ctx : Context) (predictedPrice : euint64) (direction : euint8)
    (s : Storage) : Storage :=
  let prediction := (msg_sender ctx, getCurrentDay ctx) in
  update_prediction prediction (Prediction.set_claimed false)
    (update_prediction prediction (Prediction.set_submittedAt (block_timestamp ctx))
       (update_prediction prediction (Prediction.set_stake (msg_value ctx mod 2 ^ 64))
          (update_prediction prediction (Prediction.set_direction direction)
             (update_prediction prediction (Prediction.set_price predictedPrice) s)))).

(** The encrypted win predicate of [_checkPrediction], on a forecast and a
    reference value. *)
Definition didWin (p : Prediction.t) (price : uint64) : ebool :=
  FHE.or
    (FHE.and (FHE.eq (Prediction.direction p) (FHE.asEuint8 1))
             (FHE.gt (FHE.asEuint64 price) (Prediction.price p)))
    (FHE.and (FHE.eq (Prediction.direction p) (FHE.asEuint8 2))
             (FHE.lt (FHE.asEuint64 price) (Prediction.price p))).

(** The reward of [_calculateReward]. *)
Definition awarded (stake : uint64) (won : ebool) : euint64 :=
  FHE.select won (FHE.asEuint64 stake) (FHE.asEuint64 0).

(** The storage after a successful [confirmPrediction]. *)
Definition settled (ctx : Context) (day : uint256) (s : Storage) : Storage :=
  let prediction := (msg_sender ctx, day) in
  let p := predictions_at s prediction in
  let won := didWin p (DailyPrice.price (dailyPrices_at s day)) in
  update_prediction prediction (Prediction.set_claimed true)
    (set_lastResult (msg_sender ctx) won
       (set_points (msg_sender ctx)
          (FHE.add (pointsOf s (msg_sender ctx)) (awarded (Prediction.stake p) won))
          s)).

(** A transaction either fails and keeps the storage, or it is one of the four
    successful calls with its closed-form storage. *)
Inductive step (ctx : Context) (s : Storage) : Call → Storage → Prop :=
| step_failed c :
    step ctx s c s
| step_transfer newOwner :
    msg_sender ctx = owner s → newOwner ≠ address_zero →
    step ctx s (TransferOwnership newOwner) (set_owner newOwner s)
| step_record price :
    msg_sender ctx = owner s → price ≠ 0 → lastPriceDay s < getCurrentDay ctx →
    step ctx s (UpdateDailyPrice price) (recorded ctx price s)
| step_submit p d :
    0 < msg_value ctx ≤ uint64_max →
    Prediction.stake (predictions_at s (msg_sender ctx, getCurrentDay ctx)) = 0 →
    step ctx s (SubmitPrediction p d true) (submitted ctx p d s)
| step_confirm day :
    Prediction.stake (predictions_at s (msg_sender ctx, day)) ≠ 0 →
    Prediction.claimed (predictions_at s (msg_sender ctx, day)) = false →
    day < getCurrentDay ctx →
    DailyPrice.timestamp (dailyPrices_at s day) ≠ 0 →
    step ctx s (ConfirmPrediction day) (settled ctx day s).

(** The four eligibility checks of [confirmPrediction], in the words of the
    specification. *)
Definition eligible (ctx : Context) (day : uint256) (s : Storage) : Prop :=
  Prediction.stake (predictions_at s (msg_sender ctx, day)) ≠ 0 ∧
  Prediction.claimed (predictions_at s (msg_sender ctx, day)) = false ∧
  day < getCurrentDay ctx ∧
  is_Some (_dailyPrices s !! day).



(** The errors each entry point can raise. *)
Definition errors_of (c : Call) : list Error :=
  match c with
  | TransferOwnership _ => [OnlyOwner; InvalidOwner]
  | UpdateDailyPrice _ => [OnlyOwner; InvalidPrice; PriceAlreadyUpdated]
  | SubmitPrediction _ _ _ =>
      [StakeRequired; StakeTooLarge; PredictionExists; InputVerificationFailed]
  | ConfirmPrediction _ =>
      [PredictionMissing; PredictionAlreadyClaimed; ConfirmationTooEarly;
       PriceNotAvailable]
  end.

(** ** Histories and the ledger, for the properties beyond the claims *)

(** The transaction is the confirmation of account [a] for [day]. *)
Definition confirms (a : address) (day : uint256) (tx : Tx) : bool :=
  match tx.2 with
  | ConfirmPrediction d => (msg_sender tx.1 =? a) && (d =? day)
  | _ => false
  end.

(** What the forecast [p], stored under the key [ptr], has contributed to the
    points of [a]: its reward if it is a settled forecast of [a], nothing
    otherwise. *)
Definition credit_of (prices : gmap N DailyPrice.t) (a : address)
    (ptr : N * N) (p : Prediction.t) : N :=
  if (ptr.1 =? a) && Prediction.claimed p
  then awarded (Prediction.stake p)
         (didWin p (DailyPrice.price (default DailyPrice.zero (prices !! ptr.2))))
  else 0.

Definition add_credit (prices : gmap N DailyPrice.t) (a : address)
    (ptr : N * N) (p : Prediction.t) (acc : N) : N :=
  credit_of prices a ptr p + acc.

(** The rewards of all settled forecasts of [a], as an unbounded sum. *)
Definition total_credit (s : Storage) (a : address) : N :=
  map_fold (add_credit (_dailyPrices s) a) 0 (_predictions s).

(** ** The web client

    [app/src/components/PredictionApp.tsx]: the day the confirmation form
    proposes once the current day is known,
    [currentDay > 0n ? currentDay - 1n : 0n], and the label shown for a
    decrypted direction. *)

Module Frontend.

Definition fallbackDay (currentDay : N) : N :=
  if 0 <? currentDay then currentDay - 1 else 0.

Inductive Label := Above | Below | Unknown.

Definition directionLabel (decryptedDirection : N) : Label :=
  if decryptedDirection =? 1 then Above
  else if decryptedDirection =? 2 then Below
  else Unknown.

End Frontend.

(** ** Scenarios

    The settlement scenario of the specification (the owner records period
    100, an account forecasts "above 63000" in period 100 and confirms in
    period 101), continued for a second round, and a few variations. *)

Module Scenario.

Definition deployer : N := 1.
Definition alice : N := 2.
Definition bob : N := 3.

(** The first second of a period. *)
Definition start_of (day : N) : N := day * one_days.

Definition at_ (who : N) (value : N) (time : N) : Context :=
  mkContext who value time.

Definition deployed : Storage := constructor (at_ deployer 0 (start_of 100)).

(** 2^63 wei, a little over 9.2 ether. *)
Definition big_stake : N := 9223372036854775808.

Definition first_setup : list Tx :=
  [ (at_ alice big_stake (start_of 100), SubmitPrediction 63000 1 true);
    (at_ deployer 0 (start_of 100 + 60), UpdateDailyPrice 64000) ].

Definition first_round : list Tx :=
  first_setup ++ [ (at_ alice 0 (start_of 101), ConfirmPrediction 100) ].

Definition second_setup : list Tx :=
  [ (at_ alice big_stake (start_of 101 + 10), SubmitPrediction 63000 1 true);
    (at_ deployer 0 (start_of 101 + 60), UpdateDailyPrice 64000) ].

(** Alice's first forecast is in, its reference recorded, not yet confirmed. *)
Definition before_first_win : Storage := run first_setup deployed.

(** Alice has won the first round. *)
Definition after_first_win : Storage := run first_round deployed.

(** Alice's second forecast is in, its reference recorded, not yet confirmed. *)
Definition before_second_win : Storage :=
  run (first_round ++ second_setup) deployed.


(** Alice forecasts in period 100 with a small stake; nothing else happens. *)
Definition after_submit : Storage :=
  run [ (at_ alice 50 (start_of 100), SubmitPrediction 63000 1 true) ] deployed.

(** The history of the repository's test "awards encrypted points for a
    correct prediction": a stake of 0.1 ether on "above 61000", the price
    65000 recorded the same day, the confirmation a day and two seconds
    later. *)
Definition tenth_of_ether : N := 100000000000000000.
Definition test_history : list Tx :=
  [ (at_ alice tenth_of_ether (start_of 100 + 5), SubmitPrediction 61000 1 true);
    (at_ deployer 0 (start_of 100 + 6), UpdateDailyPrice 65000);
    (at_ alice 0 (start_of 100 + 6 + one_days + 2), ConfirmPrediction 100) ].

(** A contract deployed in period 0, with a forecast made in period 0. *)
Definition genesis : Storage := constructor (at_ deployer 0 0).
Definition genesis_forecast : Storage :=
  run [ (at_ alice 50 10, SubmitPrediction 63000 1 true) ] genesis.

End Scenario.

(** * Verification *)

(** ** The repository's tests, replayed on the model *)

Example test_stores_prediction_metadata :
  let s := run (take 1 Scenario.test_history) Scenario.deployed in
  (getPredictionMetadata s Scenario.alice 100).1.1 = Scenario.tenth_of_ether ∧
  (getPredictionMetadata s Scenario.alice 100).2 = false.
Proof. by vm_compute. Qed.

Example test_awards_points_for_a_correct_prediction :
  let s := run Scenario.test_history Scenario.deployed in
  chronological (Scenario.start_of 100) Scenario.test_history = true ∧
  getPoints s Scenario.alice = Some Scenario.tenth_of_ether ∧
  getLastResult s Scenario.alice = Some true.
Proof. by vm_compute. Qed.

(** The two settlement scenarios of the specification: direction 1 wins
    against a higher reference, direction 2 loses and earns nothing. *)
Example scenario_above_wins_below_loses :
  let confirm := (Scenario.at_ Scenario.alice 0 (Scenario.start_of 101), ConfirmPrediction 100) in
  let record := (Scenario.at_ Scenario.deployer 0 (Scenario.start_of 100 + 60), UpdateDailyPrice 64000) in
  let submit d := (Scenario.at_ Scenario.alice 50 (Scenario.start_of 100), SubmitPrediction 63000 d true) in
  let above := run [submit 1; record; confirm] Scenario.deployed in
  let below := run [submit 2; record; confirm] Scenario.deployed in
  (pointsOf above Scenario.alice = 50 ∧ getLastResult above Scenario.alice = Some true) ∧
  (pointsOf below Scenario.alice = 0 ∧ getLastResult below Scenario.alice = Some false).
Proof. by vm_compute. Qed.

(** ** The encrypted addition *)

Lemma add_in_range a b : FHE.add a b ≤ uint64_max.
Proof.
  unfold FHE.add, uint64_max.
  pose proof (N.mod_lt (a + b) (2 ^ 64)). lia.
Qed.

Lemma add_exact a b : a + b ≤ uint64_max → FHE.add a b = a + b.
Proof. unfold FHE.add, uint64_max. intros H. apply N.mod_small. lia. Qed.

(** Whatever an addition on 64-bit values does on overflow, it cannot be
    exact at 2^63 + 2^63: the facts below about points that stop growing do
    not hinge on the wrap-around of [FHE.add]. *)
Remark no_exact_addition_in_64_bits (add' : N → N → N) :
  (∀ a b, add' a b ≤ uint64_max) → add' (2 ^ 63) (2 ^ 63) ≠ 2 ^ 63 + 2 ^ 63.
Proof. intros Hrange Heq. specialize (Hrange (2 ^ 63) (2 ^ 63)). rewrite Heq in Hrange. by vm_compute in Hrange. Qed.

(** ** Reading storage through the setters *)

Lemma predictions_at_update ptr f s ptr' :
  predictions_at (update_prediction ptr f s) ptr' =
    if decide (ptr = ptr') then f (predictions_at s ptr) else predictions_at s ptr'.
Proof.
  unfold predictions_at, update_prediction; simpl.
  rewrite lookup_insert. by case_decide.
Qed.

Lemma predictions_at_update_eq ptr f s :
  predictions_at (update_prediction ptr f s) ptr = f (predictions_at s ptr).
Proof. rewrite predictions_at_update. by case_decide. Qed.

Lemma predictions_at_update_ne ptr f s ptr' :
  ptr ≠ ptr' → predictions_at (update_prediction ptr f s) ptr' = predictions_at s ptr'.
Proof. intros. rewrite predictions_at_update. by case_decide. Qed.

Lemma dailyPrices_at_set day v s day' :
  dailyPrices_at (set_dailyPrices day v s) day' =
    if decide (day = day') then v else dailyPrices_at s day'.
Proof.
  unfold dailyPrices_at, set_dailyPrices; simpl.
  rewrite lookup_insert. by case_decide.
Qed.

Lemma pointsOf_set_points user v s a :
  pointsOf (set_points user v s) a = if decide (user = a) then v else pointsOf s a.
Proof.
  unfold pointsOf, getPoints, set_points, FHE.initialized; simpl.
  rewrite lookup_insert. by case_decide.
Qed.

(** ** What each entry point computes

    One equation per function: the guards in the order of the source, then
    the storage and the log of a successful call. *)

Ltac step_body :=
  unfold bind, sload, sstore, emit, when, revert, ret, external,
         FHE_allowThis, FHE_allow; simpl.

Lemma onlyOwner_eq ctx s :
  onlyOwner ctx s =
    if msg_sender ctx =? owner s then Done tt s [] else Reverted OnlyOwner s.
Proof. unfold onlyOwner. step_body. by destruct (_ =? _). Qed.

Lemma transferOwnership_eq ctx newOwner s :
  transferOwnership ctx newOwner s =
    if negb (msg_sender ctx =? owner s) then Reverted OnlyOwner s
    else if newOwner =? address_zero then Reverted InvalidOwner s
    else Done tt (set_owner newOwner s) [OwnerTransferred (owner s) newOwner].
Proof.
  unfold transferOwnership, onlyOwner. step_body.
  destruct (msg_sender ctx =? owner s); simpl; [|done].
  by destruct (newOwner =? address_zero).
Qed.

Lemma updateDailyPrice_eq ctx price s :
  updateDailyPrice ctx price s =
    if negb (msg_sender ctx =? owner s) then Reverted OnlyOwner s
    else if price =? 0 then Reverted InvalidPrice s
    else if getCurrentDay ctx <=? lastPriceDay s then Reverted PriceAlreadyUpdated s
    else Done tt (recorded ctx price s)
           [PriceUpdated (getCurrentDay ctx) price (block_timestamp ctx)].
Proof.
  unfold updateDailyPrice, onlyOwner. step_body.
  destruct (msg_sender ctx =? owner s); simpl; [|done].
  destruct (price =? 0); simpl; [done|].
  by destruct (getCurrentDay ctx <=? lastPriceDay s).
Qed.

Lemma submitPrediction_eq ctx p d proof s :
  submitPrediction ctx p d proof s =
    if msg_value ctx =? 0 then Reverted StakeRequired s
    else if uint64_max <? msg_value ctx then Reverted StakeTooLarge s
    else if negb (Prediction.stake
                    (predictions_at s (msg_sender ctx, getCurrentDay ctx)) =? 0)
      then Reverted PredictionExists s
    else if proof
      then Done tt (submitted ctx p d s)
             [PredictionSubmitted (msg_sender ctx) (getCurrentDay ctx)
                (msg_value ctx mod 2 ^ 64) (block_timestamp ctx)]
    else Reverted InputVerificationFailed s.
Proof.
  unfold submitPrediction. step_body.
  destruct (msg_value ctx =? 0); simpl; [done|].
  destruct (uint64_max <? msg_value ctx); simpl; [done|].
  destruct (Prediction.stake _ =? 0); simpl; [|done].
  by destruct proof.
Qed.

Lemma predictions_at_submitted ctx p d s ptr :
  predictions_at (submitted ctx p d s) ptr =
    if decide ((msg_sender ctx, getCurrentDay ctx) = ptr)
    then Prediction.mk p d (msg_value ctx mod 2 ^ 64) (block_timestamp ctx) false
    else predictions_at s ptr.
Proof.
  unfold submitted. cbv zeta.
  case_decide as Hptr.
  - subst ptr. by rewrite !predictions_at_update_eq.
  - by rewrite !predictions_at_update_ne.
Qed.

Lemma _checkPrediction_eq ptr price s :
  _checkPrediction ptr price s = Done (didWin (predictions_at s ptr) price) s [].
Proof. reflexivity. Qed.

Lemma _calculateReward_eq stake won s :
  _calculateReward stake won s = Done (awarded stake won) s [].
Proof. reflexivity. Qed.

Lemma confirmPrediction_eq ctx day s :
  confirmPrediction ctx day s =
    let p := predictions_at s (msg_sender ctx, day) in
    if Prediction.stake p =? 0 then Reverted PredictionMissing s
    else if Prediction.claimed p then Reverted PredictionAlreadyClaimed s
    else if getCurrentDay ctx <=? day then Reverted ConfirmationTooEarly s
    else if DailyPrice.timestamp (dailyPrices_at s day) =? 0
      then Reverted PriceNotAvailable s
    else Done tt (settled ctx day s)
           [PredictionConfirmed (msg_sender ctx) day (Prediction.stake p)].
Proof.
  unfold confirmPrediction. step_body.
  destruct (Prediction.stake _ =? 0); simpl; [done|].
  destruct (Prediction.claimed _); simpl; [done|].
  destruct (getCurrentDay ctx <=? day); simpl; [done|].
  destruct (DailyPrice.timestamp _ =? 0); simpl; [done|].
  unfold _checkPrediction, _calculateReward. step_body.
  by rewrite predictions_at_update_eq.
Qed.

Lemma predictions_at_settled ctx day s ptr :
  predictions_at (settled ctx day s) ptr =
    if decide ((msg_sender ctx, day) = ptr)
    then Prediction.set_claimed true (predictions_at s ptr)
    else predictions_at s ptr.
Proof.
  unfold settled. cbv zeta. rewrite predictions_at_update.
  case_decide; by subst.
Qed.

Lemma dailyPrices_settled ctx day s : _dailyPrices (settled ctx day s) = _dailyPrices s.
Proof. reflexivity. Qed.

Lemma pointsOf_settled ctx day s a :
  pointsOf (settled ctx day s) a =
    if decide (msg_sender ctx = a)
    then FHE.add (pointsOf s a)
           (awarded (Prediction.stake (predictions_at s (a, day)))
              (didWin (predictions_at s (a, day))
                 (DailyPrice.price (dailyPrices_at s day))))
    else pointsOf s a.
Proof.
  unfold settled. cbv zeta.
  change (pointsOf (update_prediction ?p ?f (set_lastResult ?u ?w ?s')) a)
    with (pointsOf s' a).
  rewrite pointsOf_set_points. case_decide; by subst.
Qed.

Lemma getLastResult_settled ctx day s a :
  getLastResult (settled ctx day s) a =
    if decide (msg_sender ctx = a)
    then Some (didWin (predictions_at s (a, day))
                 (DailyPrice.price (dailyPrices_at s day)))
    else getLastResult s a.
Proof.
  unfold settled, getLastResult. cbv zeta. simpl.
  rewrite lookup_insert. case_decide; by subst.
Qed.

(** ** Transactions *)

Lemma execute_Done ctx c s s' log :
  dispatch ctx c s = Done tt s' log → execute ctx c s = (s', Success log).
Proof. unfold execute. by intros ->. Qed.

Lemma execute_Reverted ctx c s e s' :
  dispatch ctx c s = Reverted e s' → execute ctx c s = (s, Failure e).
Proof. unfold execute. by intros ->. Qed.

Ltac split_if :=
  match goal with
  | |- context [if ?b then _ else _] => destruct b eqn:?
  end.

Lemma execute_step ctx c s : step ctx s c (execute ctx c s).1.
Proof.
  unfold execute, dispatch. destruct c.
  - rewrite transferOwnership_eq. repeat split_if; simpl; try constructor.
    + apply negb_false_iff in Heqb. by apply N.eqb_eq.
    + by apply N.eqb_neq.
  - rewrite updateDailyPrice_eq. repeat split_if; simpl; try constructor.
    + apply negb_false_iff in Heqb. by apply N.eqb_eq.
    + by apply N.eqb_neq.
    + by apply N.leb_gt.
  - rewrite submitPrediction_eq. repeat split_if; simpl; try constructor.
    + apply N.eqb_neq in Heqb. apply N.ltb_ge in Heqb0. lia.
    + apply negb_false_iff in Heqb1. by apply N.eqb_eq.
  - rewrite confirmPrediction_eq. cbv zeta. repeat split_if; simpl; try constructor.
    + by apply N.eqb_neq.
    + done.
    + by apply N.leb_gt.
    + by apply N.eqb_neq.
Qed.

(** Induction over reachable states, one case per successful call. *)
Lemma reachable_inv (P : Storage → Prop) :
  (∀ ctx, msg_sender ctx ≠ address_zero → P (constructor ctx)) →
  (∀ ctx s c s', reachable s → P s → step ctx s c s' → P s') →
  ∀ s, reachable s → P s.
Proof.
  intros Hinit Hstep s Hs. induction Hs as [ctx Hctx | s ctx c Hs IH].
  - by apply Hinit.
  - eapply Hstep; [exact Hs | exact IH | apply execute_step].
Qed.

Lemma reachable_run txs s : reachable s → reachable (run txs s).
Proof.
  revert s. induction txs as [|[ctx c] txs IH]; intros s Hs; simpl; [done|].
  apply IH. by constructor.
Qed.

Ltac reachable_induction :=
  match goal with
  | |- ∀ s, reachable s → @?P s => apply (reachable_inv P)
  end.

(** ** Invariants of the reachable states *)

Lemma owner_not_null s : reachable s → owner s ≠ address_zero.
Proof.
  revert s. reachable_induction.
  - intros ctx Hctx. exact Hctx.
  - intros ctx s c s' _ IH Hstep. by destruct Hstep.
Qed.

(** A settled forecast has a stake: [claimed] is only ever set behind the
    [PredictionMissing] guard, and [stake] is never reset. *)
Lemma claimed_has_stake s :
  reachable s →
  ∀ ptr, Prediction.claimed (predictions_at s ptr) = true →
         Prediction.stake (predictions_at s ptr) ≠ 0.
Proof.
  revert s. reachable_induction.
  - intros ctx _ ptr. by cbn.
  - intros ctx s c s' _ IH Hstep ptr. destruct Hstep; try apply IH.
    + rewrite predictions_at_submitted. case_decide; [by cbn | apply IH].
    + rewrite predictions_at_settled. case_decide; [subst ptr | apply IH].
      by cbn.
Qed.

(** Points always fit in 64 bits. *)
Lemma points_in_range s : reachable s → ∀ a, pointsOf s a < 2 ^ 64.
Proof.
  revert s. reachable_induction.
  - intros ctx _ a. by cbn.
  - intros ctx s c s' _ IH Hstep a. destruct Hstep; try apply IH.
    rewrite pointsOf_settled. case_decide; [|apply IH].
    unfold FHE.add. by apply N.mod_lt.
Qed.

(** Reference records exist only for days in [1 .. lastPriceDay], and a
    record carries a non-zero timestamp: [record.timestamp == 0] is an exact
    test for "no record". *)
Lemma getCurrentDay_timestamp_0 ctx : block_timestamp ctx = 0 → getCurrentDay ctx = 0.
Proof. unfold getCurrentDay. by intros ->. Qed.

Lemma dailyPrices_range s :
  reachable s →
  ∀ day r, _dailyPrices s !! day = Some r →
           0 < day ≤ lastPriceDay s ∧ DailyPrice.timestamp r ≠ 0.
Proof.
  revert s. reachable_induction.
  - intros ctx _ day r. by cbn.
  - intros ctx s c s' _ IH Hstep day r. destruct Hstep; try apply IH.
    unfold recorded; simpl. rewrite lookup_insert. case_decide as Hd.
    + intros [= <-]. subst day. simpl. split; [lia|].
      intros Hz. apply getCurrentDay_timestamp_0 in Hz. lia.
    + intros Hr. destruct (IH _ _ Hr). split; [lia | done].
Qed.

Lemma no_record_for_day_0 s : reachable s → _dailyPrices s !! 0 = None.
Proof.
  intros Hs. destruct (_dailyPrices s !! 0) as [r|] eqn:Hr; [|done].
  destruct (dailyPrices_range s Hs _ _ Hr). lia.
Qed.

(** A forecast of day 0 is never settled. *)
Lemma day_0_never_claimed s :
  reachable s → ∀ a, Prediction.claimed (predictions_at s (a, 0)) = false.
Proof.
  revert s. reachable_induction.
  - intros ctx _ a. by cbn.
  - intros ctx s c s' Hs IH Hstep a. destruct Hstep; try apply IH.
    + rewrite predictions_at_submitted. case_decide; [by cbn | apply IH].
    + rewrite predictions_at_settled. case_decide as Hp; [|apply IH].
      injection Hp as _ ->.
      unfold dailyPrices_at in H2. rewrite (no_record_for_day_0 s Hs) in H2.
      by cbn in H2.
Qed.

(** ** Settlement: reward correctness *)

Lemma didWin_above p ref :
  Prediction.direction p = 1 → Prediction.price p < ref → didWin p ref = true.
Proof.
  intros Hd Hlt. unfold didWin, FHE.or, FHE.and, FHE.eq, FHE.gt, FHE.asEuint8, FHE.asEuint64.
  rewrite Hd. apply N.ltb_lt in Hlt. by rewrite Hlt.
Qed.



Lemma awarded_won stake : awarded stake true = stake.
Proof. reflexivity. Qed.

Lemma awarded_lost stake : awarded stake false = 0.
Proof. reflexivity. Qed.

Lemma eligible_confirms ctx day s :
  reachable s → eligible ctx day s →
  execute ctx (ConfirmPrediction day) s =
    (settled ctx day s,
     Success [PredictionConfirmed (msg_sender ctx) day
                (Prediction.stake (predictions_at s (msg_sender ctx, day)))]).
Proof.
  intros Hs (Hstake & Hclaimed & Hday & [r Hr]).
  apply execute_Done. simpl. rewrite confirmPrediction_eq. cbv zeta.
  apply N.eqb_neq in Hstake. rewrite Hstake, Hclaimed.
  apply N.leb_gt in Hday. rewrite Hday.
  destruct (dailyPrices_range s Hs _ _ Hr) as [_ Hts].
  unfold dailyPrices_at at 1. rewrite Hr. simpl.
  apply N.eqb_neq in Hts. by rewrite Hts.
Qed.


Ltac scenario_reachable :=
  apply reachable_run, reachable_deploy; discriminate.

Ltac scenario_eligible :=
  unfold eligible; split; [|split; [|split]];
  [by vm_compute | by vm_compute | by vm_compute | vm_compute; by eexists].



(** ** Settlement: exactly once *)

Lemma settled_is_claimed ctx day s :
  Prediction.claimed (predictions_at (settled ctx day s) (msg_sender ctx, day)) = true.
Proof. rewrite predictions_at_settled. by case_decide. Qed.

Lemma settled_keeps_stake ctx day s ptr :
  Prediction.stake (predictions_at (settled ctx day s) ptr) =
  Prediction.stake (predictions_at s ptr).
Proof. rewrite predictions_at_settled. by case_decide. Qed.

Lemma confirm_success_inv ctx day s s' log :
  execute ctx (ConfirmPrediction day) s = (s', Success log) →
  s' = settled ctx day s ∧
  Prediction.stake (predictions_at s (msg_sender ctx, day)) ≠ 0.
Proof.
  unfold execute, dispatch. rewrite confirmPrediction_eq. cbv zeta.
  destruct (Prediction.stake _ =? 0) eqn:Hstake; [done|].
  repeat split_if; try done.
  intros [= <- _]. split; [done | by apply N.eqb_neq].
Qed.

(** C2. In every reachable state, if the forecast of (account, period) is
    settled, any [confirmPrediction(period)] by that account fails with
    [PredictionAlreadyClaimed] and leaves the storage, hence the points and
    the last outcome of every account, as they were.  In particular the
    confirmation that follows a successful one (from any state) is rejected
    so, and credits nothing. *)
Theorem confirm_settled_rejected :
  (∀ s ctx day,
     reachable s →
     Prediction.claimed (predictions_at s (msg_sender ctx, day)) = true →
     execute ctx (ConfirmPrediction day) s = (s, Failure PredictionAlreadyClaimed) ∧
     ∀ a, getPoints (execute ctx (ConfirmPrediction day) s).1 a = getPoints s a ∧
          getLastResult (execute ctx (ConfirmPrediction day) s).1 a = getLastResult s a) ∧
  (∀ s ctx day s' log ctx',
     execute ctx (ConfirmPrediction day) s = (s', Success log) →
     msg_sender ctx' = msg_sender ctx →
     execute ctx' (ConfirmPrediction day) s' = (s', Failure PredictionAlreadyClaimed)).
Proof.
  split.
  - intros s ctx day Hs Hclaimed.
    assert (execute ctx (ConfirmPrediction day) s = (s, Failure PredictionAlreadyClaimed))
      as Hfail.
    { eapply execute_Reverted. simpl. rewrite confirmPrediction_eq. cbv zeta.
      pose proof (claimed_has_stake s Hs _ Hclaimed) as Hstake.
      apply N.eqb_neq in Hstake. by rewrite Hstake, Hclaimed. }
    by rewrite Hfail.
  - intros s ctx day s' log ctx' Hok Hsender.
    destruct (confirm_success_inv _ _ _ _ _ Hok) as [-> Hstake].
    eapply execute_Reverted. simpl. rewrite confirmPrediction_eq. cbv zeta.
    rewrite Hsender, settled_keeps_stake, settled_is_claimed.
    apply N.eqb_neq in Hstake. by rewrite Hstake.
Qed.

Lemma confirm_settled_rejected_witness :
  let ctx := Scenario.at_ Scenario.alice 0 (Scenario.start_of 101 + 5) in
  execute ctx (ConfirmPrediction 100) Scenario.after_first_win =
    (Scenario.after_first_win, Failure PredictionAlreadyClaimed) ∧
  execute ctx (ConfirmPrediction 100)
    (execute (Scenario.at_ Scenario.alice 0 (Scenario.start_of 101))
       (ConfirmPrediction 100) Scenario.before_first_win).1 =
    (Scenario.after_first_win, Failure PredictionAlreadyClaimed).
Proof.
  intros ctx. split.
  - apply (proj1 confirm_settled_rejected); [scenario_reachable | by vm_compute].
  - apply (proj2 confirm_settled_rejected Scenario.before_first_win
             (Scenario.at_ Scenario.alice 0 (Scenario.start_of 101)) 100
             Scenario.after_first_win
             [PredictionConfirmed Scenario.alice 100 Scenario.big_stake] ctx);
      by vm_compute.
Defined.

(** ** Reference registry *)

Lemma step_lastPriceDay ctx s c s' :
  step ctx s c s' → lastPriceDay s ≤ lastPriceDay s'.
Proof. destruct 1; simpl; lia. Qed.

Lemma run_lastPriceDay txs s : lastPriceDay s ≤ lastPriceDay (run txs s).
Proof.
  revert s. induction txs as [|[ctx c] txs IH]; intros s; simpl; [lia|].
  etrans; [|apply IH]. eapply step_lastPriceDay, execute_step.
Qed.

Lemma update_success_inv ctx price s s' log :
  execute ctx (UpdateDailyPrice price) s = (s', Success log) →
  s' = recorded ctx price s ∧ msg_sender ctx = owner s ∧ price ≠ 0 ∧
  lastPriceDay s < getCurrentDay ctx.
Proof.
  unfold execute, dispatch. rewrite updateDailyPrice_eq.
  destruct (msg_sender ctx =? owner s) eqn:Ho; simpl; [|done].
  destruct (price =? 0) eqn:Hp; [done|].
  destruct (getCurrentDay ctx <=? lastPriceDay s) eqn:Hd; [done|].
  intros [= <- _]. repeat split.
  - by apply N.eqb_eq.
  - by apply N.eqb_neq.
  - by apply N.leb_gt.
Qed.

Lemma update_stale_fails ctx price s :
  getCurrentDay ctx ≤ lastPriceDay s →
  (∃ e, execute ctx (UpdateDailyPrice price) s = (s, Failure e)) ∧
  (msg_sender ctx = owner s → price ≠ 0 →
   execute ctx (UpdateDailyPrice price) s = (s, Failure PriceAlreadyUpdated)).
Proof.
  intros Hstale. apply N.leb_le in Hstale.
  unfold execute, dispatch. rewrite updateDailyPrice_eq, Hstale. split.
  - repeat split_if; by eexists.
  - intros Ho Hp. apply N.eqb_eq in Ho. apply N.eqb_neq in Hp. by rewrite Ho, Hp.
Qed.

(** C3 (as amended). [updateDailyPrice] succeeds only in a period strictly
    greater than [lastPriceDay] (any such period, not only the next one), and
    a success stores the record and moves [lastPriceDay] up to that period,
    so that it strictly increases on every write; after a success in period p
    no later call in period p succeeds, whatever happened in between.  A call
    in a period less than or equal to [lastPriceDay] always fails, and it fails
    with [PriceAlreadyUpdated] when it comes from the owner with a non-zero
    price ([OnlyOwner] and [InvalidPrice] are checked first). *)
Theorem record_once_per_period :
  (∀ ctx price s s' log,
     execute ctx (UpdateDailyPrice price) s = (s', Success log) →
     lastPriceDay s < getCurrentDay ctx ∧
     lastPriceDay s' = getCurrentDay ctx ∧
     lastPriceDay s < lastPriceDay s' ∧
     getDailyPrice s' (getCurrentDay ctx) = (price, block_timestamp ctx) ∧
     ∀ txs ctx' price',
       getCurrentDay ctx' = getCurrentDay ctx →
       ∃ e, execute ctx' (UpdateDailyPrice price') (run txs s') = (run txs s', Failure e)) ∧
  (∀ ctx price s,
     getCurrentDay ctx ≤ lastPriceDay s →
     (∃ e, execute ctx (UpdateDailyPrice price) s = (s, Failure e)) ∧
     (msg_sender ctx = owner s → price ≠ 0 →
      execute ctx (UpdateDailyPrice price) s = (s, Failure PriceAlreadyUpdated))).
Proof.
  split; [|apply update_stale_fails].
  intros ctx price s s' log Hok.
  destruct (update_success_inv _ _ _ _ _ Hok) as (-> & _ & _ & Hlt).
  split; [done|]. split; [done|]. split; [done|]. split.
  - unfold getDailyPrice, dailyPrices_at, recorded; simpl.
    by rewrite lookup_insert_eq.
  - intros txs ctx' price' Hsame.
    apply update_stale_fails. rewrite Hsame.
    etrans; [|apply run_lastPriceDay]. done.
Qed.

Lemma record_once_per_period_witness :
  let first := Scenario.at_ Scenario.deployer 0 (Scenario.start_of 100 + 60) in
  let again := Scenario.at_ Scenario.deployer 0 (Scenario.start_of 100 + 7200) in
  lastPriceDay Scenario.deployed < lastPriceDay Scenario.before_first_win ∧
  execute again (UpdateDailyPrice 64500) Scenario.after_first_win =
    (Scenario.after_first_win, Failure PriceAlreadyUpdated).
Proof.
  intros first again.
  pose (s := (execute (Scenario.at_ Scenario.alice Scenario.big_stake (Scenario.start_of 100))
                (SubmitPrediction 63000 1 true) Scenario.deployed).1).
  destruct (proj1 record_once_per_period first 64000 s Scenario.before_first_win
              [PriceUpdated 100 64000 (Scenario.start_of 100 + 60)])
    as (_ & _ & Hinc & _); [by vm_compute|].
  split; [exact Hinc|].
  apply (proj2 record_once_per_period); [by vm_compute| |]; by vm_compute.
Defined.

(** C3, as stated, fails: a write succeeds in period 103 although the last
    recorded period is 100 (103 is not the first period after 100); and a call
    in the already recorded period 100 fails with [InvalidPrice] when the owner
    passes the price 0, and with [OnlyOwner] when another account calls. *)
Lemma record_period_counterexample :
  let s := Scenario.after_first_win in
  reachable s ∧
  lastPriceDay s = 100 ∧
  (execute (Scenario.at_ Scenario.deployer 0 (Scenario.start_of 103))
     (UpdateDailyPrice 65000) s).2 =
    Success [PriceUpdated 103 65000 (Scenario.start_of 103)] ∧
  owner s = Scenario.deployer ∧
  getCurrentDay (Scenario.at_ Scenario.deployer 0 (Scenario.start_of 100 + 7200)) = 100 ∧
  execute (Scenario.at_ Scenario.deployer 0 (Scenario.start_of 100 + 7200))
    (UpdateDailyPrice 0) s = (s, Failure InvalidPrice) ∧
  execute (Scenario.at_ Scenario.bob 0 (Scenario.start_of 100 + 7200))
    (UpdateDailyPrice 64500) s = (s, Failure OnlyOwner).
Proof. split; [scenario_reachable|]. repeat split; by vm_compute. Qed.

(** ** Settlement: the order of the guards *)

Lemma confirm_needs_elapsed_period_and_record ctx day s :
  getCurrentDay ctx ≤ day ∨ _dailyPrices s !! day = None →
  ∃ e, execute ctx (ConfirmPrediction day) s = (s, Failure e).
Proof.
  intros Hbad. unfold execute, dispatch. rewrite confirmPrediction_eq. cbv zeta.
  repeat split_if; try by eexists.
  exfalso. destruct Hbad as [Hearly | Hnone].
  - apply N.leb_gt in Heqb1. lia.
  - unfold dailyPrices_at in Heqb2. rewrite Hnone in Heqb2. by cbn in Heqb2.
Qed.

Lemma confirm_open_forecast ctx day s :
  Prediction.stake (predictions_at s (msg_sender ctx, day)) ≠ 0 →
  Prediction.claimed (predictions_at s (msg_sender ctx, day)) = false →
  (getCurrentDay ctx ≤ day →
   execute ctx (ConfirmPrediction day) s = (s, Failure ConfirmationTooEarly)) ∧
  (day < getCurrentDay ctx → _dailyPrices s !! day = None →
   execute ctx (ConfirmPrediction day) s = (s, Failure PriceNotAvailable)).
Proof.
  intros Hstake Hclaimed. apply N.eqb_neq in Hstake.
  unfold execute, dispatch. rewrite confirmPrediction_eq. cbv zeta.
  rewrite Hstake, Hclaimed. split.
  - intros Hearly. apply N.leb_le in Hearly. by rewrite Hearly.
  - intros Hlate Hnone. apply N.leb_gt in Hlate. rewrite Hlate.
    unfold dailyPrices_at. by rewrite Hnone.
Qed.

(** C4 (as amended). [confirmPrediction(day)] never succeeds when
    day >= current day or when no reference record exists for the day.  For a
    caller whose forecast exists and is not yet settled, it fails with
    [ConfirmationTooEarly] whenever day >= current day, whether or not a
    reference exists, and with [PriceNotAvailable] when the day has elapsed and
    no reference record exists: when both checks are violated the error is
    [ConfirmationTooEarly]. *)
Theorem confirm_too_early_before_price_check ctx day s :
  ((getCurrentDay ctx ≤ day ∨ _dailyPrices s !! day = None) →
   ∃ e, execute ctx (ConfirmPrediction day) s = (s, Failure e)) ∧
  (Prediction.stake (predictions_at s (msg_sender ctx, day)) ≠ 0 →
   Prediction.claimed (predictions_at s (msg_sender ctx, day)) = false →
   (getCurrentDay ctx ≤ day →
    execute ctx (ConfirmPrediction day) s = (s, Failure ConfirmationTooEarly)) ∧
   (day < getCurrentDay ctx → _dailyPrices s !! day = None →
    execute ctx (ConfirmPrediction day) s = (s, Failure PriceNotAvailable))).
Proof.
  split; [apply confirm_needs_elapsed_period_and_record | apply confirm_open_forecast].
Qed.

Lemma confirm_too_early_before_price_check_witness :
  execute (Scenario.at_ Scenario.alice 0 (Scenario.start_of 100 + 30))
    (ConfirmPrediction 100) Scenario.after_submit =
    (Scenario.after_submit, Failure ConfirmationTooEarly) ∧
  execute (Scenario.at_ Scenario.alice 0 (Scenario.start_of 101))
    (ConfirmPrediction 100) Scenario.after_submit =
    (Scenario.after_submit, Failure PriceNotAvailable).
Proof.
  split.
  - apply confirm_too_early_before_price_check; by vm_compute.
  - apply confirm_too_early_before_price_check; by vm_compute.
Defined.

(** C4, as stated, fails: with a forecast for period 100 and no reference
    record for it, a confirmation made during period 100 fails with
    [ConfirmationTooEarly] and not with [PriceNotAvailable]; and the same call
    by an account without a forecast fails with [PredictionMissing], not with
    [ConfirmationTooEarly]. *)
Lemma confirm_error_depends_on_guard_order :
  let s := Scenario.after_submit in
  let now := Scenario.start_of 100 + 30 in
  reachable s ∧
  _dailyPrices s !! 100 = None ∧
  getCurrentDay (Scenario.at_ Scenario.alice 0 now) = 100 ∧
  execute (Scenario.at_ Scenario.alice 0 now) (ConfirmPrediction 100) s =
    (s, Failure ConfirmationTooEarly) ∧
  execute (Scenario.at_ Scenario.bob 0 now) (ConfirmPrediction 100) s =
    (s, Failure PredictionMissing).
Proof. split; [scenario_reachable|]. repeat split; by vm_compute. Qed.

(** ** Period 0 *)

Lemma getCurrentDay_0_stale ctx s : getCurrentDay ctx = 0 → getCurrentDay ctx ≤ lastPriceDay s.
Proof. intros ->. lia. Qed.

(** C10 (as amended). [lastPriceDay] starts at 0 and the guard rejects every
    period less than or equal to it, so [updateDailyPrice] never succeeds
    during period 0: it fails with [PriceAlreadyUpdated] when called by the
    owner with a non-zero price ([OnlyOwner] and [InvalidPrice] are checked
    first).  Consequently no reachable state has a reference record for
    period 0, and a forecast submitted for period 0 is never confirmed: the
    confirmation fails, with [PriceNotAvailable] once period 0 has elapsed. *)
Theorem period_0_never_recorded :
  (∀ ctx price s,
     getCurrentDay ctx = 0 →
     (∃ e, execute ctx (UpdateDailyPrice price) s = (s, Failure e)) ∧
     (msg_sender ctx = owner s → price ≠ 0 →
      execute ctx (UpdateDailyPrice price) s = (s, Failure PriceAlreadyUpdated))) ∧
  (∀ s, reachable s →
     _dailyPrices s !! 0 = None ∧ getDailyPrice s 0 = (0, 0)) ∧
  (∀ s ctx,
     reachable s →
     Prediction.stake (predictions_at s (msg_sender ctx, 0)) ≠ 0 →
     (∃ e, execute ctx (ConfirmPrediction 0) s = (s, Failure e)) ∧
     (0 < getCurrentDay ctx →
      execute ctx (ConfirmPrediction 0) s = (s, Failure PriceNotAvailable))).
Proof.
  split; [|split].
  - intros ctx price s Hday. by apply update_stale_fails, getCurrentDay_0_stale.
  - intros s Hs. pose proof (no_record_for_day_0 s Hs) as Hnone.
    split; [done|]. unfold getDailyPrice, dailyPrices_at. by rewrite Hnone.
  - intros s ctx Hs Hstake. pose proof (no_record_for_day_0 s Hs) as Hnone.
    split.
    + apply confirm_needs_elapsed_period_and_record. by right.
    + intros Helapsed.
      apply confirm_open_forecast;
        [done | by apply day_0_never_claimed | done | done].
Qed.

Lemma period_0_never_recorded_witness :
  execute (Scenario.at_ Scenario.deployer 0 3600) (UpdateDailyPrice 64000)
    Scenario.genesis_forecast =
    (Scenario.genesis_forecast, Failure PriceAlreadyUpdated) ∧
  _dailyPrices Scenario.genesis_forecast !! 0 = None ∧
  execute (Scenario.at_ Scenario.alice 0 (Scenario.start_of 1)) (ConfirmPrediction 0)
    Scenario.genesis_forecast =
    (Scenario.genesis_forecast, Failure PriceNotAvailable).
Proof.
  destruct period_0_never_recorded as (Hupdate & Hrecord & Hconfirm).
  split; [|split].
  - apply Hupdate; by vm_compute.
  - apply Hrecord. scenario_reachable.
  - apply Hconfirm; [scenario_reachable | by vm_compute | by vm_compute].
Defined.

(** C10, as stated, fails in its first sentence: during period 0 a call of
    [updateDailyPrice] by an account other than the owner fails with
    [OnlyOwner], and a call by the owner with the price 0 fails with
    [InvalidPrice]. *)
Lemma period_0_update_other_errors :
  let s := Scenario.genesis in
  reachable s ∧
  owner s = Scenario.deployer ∧
  getCurrentDay (Scenario.at_ Scenario.bob 0 3600) = 0 ∧
  execute (Scenario.at_ Scenario.bob 0 3600) (UpdateDailyPrice 64000) s =
    (s, Failure OnlyOwner) ∧
  execute (Scenario.at_ Scenario.deployer 0 3600) (UpdateDailyPrice 0) s =
    (s, Failure InvalidPrice).
Proof.
  split; [apply reachable_deploy; discriminate|]. repeat split; by vm_compute.
Qed.

(** ** Forecast registry *)

Lemma step_keeps_stake ctx s c s' ptr :
  step ctx s c s' →
  Prediction.stake (predictions_at s ptr) ≠ 0 →
  Prediction.stake (predictions_at s' ptr) = Prediction.stake (predictions_at s ptr).
Proof.
  destruct 1; intros Hstake; try done.
  - rewrite predictions_at_submitted. case_decide; [by subst ptr | done].
  - apply settled_keeps_stake.
Qed.

Lemma run_keeps_stake txs s ptr :
  Prediction.stake (predictions_at s ptr) ≠ 0 →
  Prediction.stake (predictions_at (run txs s) ptr) = Prediction.stake (predictions_at s ptr).
Proof.
  revert s. induction txs as [|[ctx c] txs IH]; intros s Hstake; simpl; [done|].
  pose proof (step_keeps_stake ctx s c _ ptr (execute_step ctx c s) Hstake) as Hkeep.
  rewrite IH; [done | by rewrite Hkeep].
Qed.

Lemma submit_success_inv ctx p d proof s s' log :
  execute ctx (SubmitPrediction p d proof) s = (s', Success log) →
  s' = submitted ctx p d s ∧ 0 < msg_value ctx ≤ uint64_max ∧
  Prediction.stake (predictions_at s (msg_sender ctx, getCurrentDay ctx)) = 0.
Proof.
  unfold execute, dispatch. rewrite submitPrediction_eq.
  destruct (msg_value ctx =? 0) eqn:Hv; [done|].
  destruct (uint64_max <? msg_value ctx) eqn:Hmax; [done|].
  destruct (Prediction.stake _ =? 0) eqn:Hstake; simpl; [|done].
  destruct proof; [|done].
  intros [= <- _]. apply N.eqb_neq in Hv. apply N.ltb_ge in Hmax.
  split; [done|]. split; [lia | by apply N.eqb_eq].
Qed.

Lemma uint64_cast_small v : v ≤ uint64_max → v mod 2 ^ 64 = v.
Proof. unfold uint64_max. intros Hv. apply N.mod_small. lia. Qed.

Lemma submit_existing_fails ctx p d proof s :
  Prediction.stake (predictions_at s (msg_sender ctx, getCurrentDay ctx)) ≠ 0 →
  (∃ e, execute ctx (SubmitPrediction p d proof) s = (s, Failure e)) ∧
  (0 < msg_value ctx ≤ uint64_max →
   execute ctx (SubmitPrediction p d proof) s = (s, Failure PredictionExists)).
Proof.
  intros Hstake. apply N.eqb_neq in Hstake.
  unfold execute, dispatch. rewrite submitPrediction_eq, Hstake. simpl. split.
  - repeat split_if; by eexists.
  - intros [Hpos Hmax].
    assert ((msg_value ctx =? 0) = false) as -> by (apply N.eqb_neq; lia).
    assert ((uint64_max <? msg_value ctx) = false) as -> by (by apply N.ltb_ge).
    done.
Qed.

(** C5 (as amended). For every (account, period), [submitPrediction] succeeds
    at most once: after a success, every later call of the same account in the
    same period fails, whatever happened in between.  Whenever a forecast with
    non-zero stake exists for the key, settled or not, a call fails; it fails
    with [PredictionExists] when it carries a stake between 1 and 2^64 - 1
    ([StakeRequired] and [StakeTooLarge] are checked first). *)
Theorem submit_once_per_period :
  (∀ ctx p d proof s s' log,
     execute ctx (SubmitPrediction p d proof) s = (s', Success log) →
     ∀ txs ctx' p' d' proof',
       msg_sender ctx' = msg_sender ctx → getCurrentDay ctx' = getCurrentDay ctx →
       ∃ e, execute ctx' (SubmitPrediction p' d' proof') (run txs s') =
              (run txs s', Failure e)) ∧
  (∀ ctx p d proof s,
     Prediction.stake (predictions_at s (msg_sender ctx, getCurrentDay ctx)) ≠ 0 →
     (∃ e, execute ctx (SubmitPrediction p d proof) s = (s, Failure e)) ∧
     (0 < msg_value ctx ≤ uint64_max →
      execute ctx (SubmitPrediction p d proof) s = (s, Failure PredictionExists))).
Proof.
  split; [|apply submit_existing_fails].
  intros ctx p d proof s s' log Hok txs ctx' p' d' proof' Hsender Hday.
  destruct (submit_success_inv _ _ _ _ _ _ _ Hok) as (-> & [Hpos Hmax] & _).
  apply submit_existing_fails. rewrite Hsender, Hday.
  assert (Prediction.stake
            (predictions_at (submitted ctx p d s) (msg_sender ctx, getCurrentDay ctx)) ≠ 0)
    as Hstake.
  { rewrite predictions_at_submitted. case_decide; [|done]. simpl.
    rewrite uint64_cast_small by done. lia. }
  by rewrite run_keeps_stake.
Qed.

Lemma submit_once_per_period_witness :
  let again := Scenario.at_ Scenario.alice 70 (Scenario.start_of 100 + 900) in
  execute again (SubmitPrediction 65000 2 true) Scenario.after_submit =
    (Scenario.after_submit, Failure PredictionExists) ∧
  ∃ e, execute again (SubmitPrediction 65000 2 true)
         (run [(Scenario.at_ Scenario.deployer 0 (Scenario.start_of 100 + 60),
                UpdateDailyPrice 64000)] Scenario.after_submit) =
         (run [(Scenario.at_ Scenario.deployer 0 (Scenario.start_of 100 + 60),
                UpdateDailyPrice 64000)] Scenario.after_submit, Failure e).
Proof.
  intros again. split.
  - apply (proj2 submit_once_per_period); by vm_compute.
  - apply (proj1 submit_once_per_period
             (Scenario.at_ Scenario.alice 50 (Scenario.start_of 100)) 63000 1 true
             Scenario.deployed Scenario.after_submit
             [PredictionSubmitted Scenario.alice 100 50 (Scenario.start_of 100)]);
      by vm_compute.
Defined.

(** C5, as stated, fails in the error it names: with a forecast of non-zero
    stake in place for (alice, period 100), a second call by alice in period
    100 fails with [StakeRequired] when it carries no stake, and with
    [StakeTooLarge] when it carries 2^64. *)
Lemma submit_again_other_errors :
  let s := Scenario.after_submit in
  reachable s ∧
  Prediction.stake (predictions_at s (Scenario.alice, 100)) = 50 ∧
  getCurrentDay (Scenario.at_ Scenario.alice 0 (Scenario.start_of 100 + 900)) = 100 ∧
  execute (Scenario.at_ Scenario.alice 0 (Scenario.start_of 100 + 900))
    (SubmitPrediction 65000 2 true) s = (s, Failure StakeRequired) ∧
  execute (Scenario.at_ Scenario.alice (2 ^ 64) (Scenario.start_of 100 + 900))
    (SubmitPrediction 65000 2 true) s = (s, Failure StakeTooLarge).
Proof. split; [scenario_reachable|]. repeat split; by vm_compute. Qed.

(** ** Rewards ledger *)










(** ** Failures are atomic *)

(** C7. Every failing call of [updateDailyPrice], [submitPrediction],
    [confirmPrediction] or [transferOwnership] aborts with one of the errors of
    its entry point and leaves the whole storage as it was; moreover the body
    itself had written nothing when it reverted. *)
Theorem failure_is_atomic ctx c s e :
  (execute ctx c s).2 = Failure e →
  (execute ctx c s).1 = s ∧ dispatch ctx c s = Reverted e s ∧ e ∈ errors_of c.
Proof.
  unfold execute. destruct c; simpl.
  - rewrite transferOwnership_eq.
    repeat split_if; simpl; intros [= <-]; repeat split; set_solver.
  - rewrite updateDailyPrice_eq.
    repeat split_if; simpl; intros [= <-]; repeat split; set_solver.
  - rewrite submitPrediction_eq.
    repeat split_if; simpl; intros [= <-]; repeat split; set_solver.
  - rewrite confirmPrediction_eq. cbv zeta.
    repeat split_if; simpl; intros [= <-]; repeat split; set_solver.
Qed.

Lemma failure_is_atomic_witness :
  (execute (Scenario.at_ Scenario.alice 50 (Scenario.start_of 100 + 30))
     (SubmitPrediction 65000 2 false) Scenario.deployed).1 = Scenario.deployed ∧
  (execute (Scenario.at_ Scenario.alice 0 (Scenario.start_of 100 + 30))
     (ConfirmPrediction 100) Scenario.after_submit).1 = Scenario.after_submit.
Proof.
  split.
  - apply (failure_is_atomic _ _ _ InputVerificationFailed). by vm_compute.
  - apply (failure_is_atomic _ _ _ ConfirmationTooEarly). by vm_compute.
Defined.

(** ** Access control *)

Lemma transfer_by_owner ctx newOwner s :
  msg_sender ctx = owner s →
  (newOwner = address_zero →
   execute ctx (TransferOwnership newOwner) s = (s, Failure InvalidOwner)) ∧
  (newOwner ≠ address_zero →
   execute ctx (TransferOwnership newOwner) s =
     (set_owner newOwner s, Success [OwnerTransferred (owner s) newOwner])).
Proof.
  intros Ho. apply N.eqb_eq in Ho.
  unfold execute, dispatch. rewrite transferOwnership_eq, Ho. simpl. split.
  - by intros ->.
  - intros Hn. apply N.eqb_neq in Hn. by rewrite Hn.
Qed.

Lemma not_owner_rejected ctx s :
  msg_sender ctx ≠ owner s →
  (∀ newOwner, execute ctx (TransferOwnership newOwner) s = (s, Failure OnlyOwner)) ∧
  (∀ price, execute ctx (UpdateDailyPrice price) s = (s, Failure OnlyOwner)).
Proof.
  intros Ho. apply N.eqb_neq in Ho. unfold execute, dispatch. split.
  - intros newOwner. by rewrite transferOwnership_eq, Ho.
  - intros price. by rewrite updateDailyPrice_eq, Ho.
Qed.

(** C8. The owner is not the null account in any reachable state.  It is
    initialised to the deploying caller; [transferOwnership] called by the
    owner fails with [InvalidOwner] when [newOwner] is the null account and
    otherwise makes [newOwner] the owner; and every call of
    [transferOwnership] or [updateDailyPrice] by a caller other than the
    current owner fails with [OnlyOwner]. *)
Theorem owner_never_null :
  (∀ s, reachable s → owner s ≠ address_zero) ∧
  (∀ ctx, owner (constructor ctx) = msg_sender ctx) ∧
  (∀ ctx newOwner s,
     msg_sender ctx = owner s →
     (newOwner = address_zero →
      execute ctx (TransferOwnership newOwner) s = (s, Failure InvalidOwner)) ∧
     (newOwner ≠ address_zero →
      (execute ctx (TransferOwnership newOwner) s).2 =
        Success [OwnerTransferred (owner s) newOwner] ∧
      owner (execute ctx (TransferOwnership newOwner) s).1 = newOwner)) ∧
  (∀ ctx s,
     msg_sender ctx ≠ owner s →
     (∀ newOwner, execute ctx (TransferOwnership newOwner) s = (s, Failure OnlyOwner)) ∧
     (∀ price, execute ctx (UpdateDailyPrice price) s = (s, Failure OnlyOwner))).
Proof.
  split; [exact owner_not_null|]. split; [done|]. split; [|exact not_owner_rejected].
  intros ctx newOwner s Ho.
  destruct (transfer_by_owner ctx newOwner s Ho) as [Hnull Hother].
  split; [exact Hnull|]. intros Hn. by rewrite (Hother Hn).
Qed.

Lemma owner_never_null_witness :
  owner Scenario.before_second_win ≠ address_zero ∧
  execute (Scenario.at_ Scenario.deployer 0 (Scenario.start_of 101))
    (TransferOwnership address_zero) Scenario.after_first_win =
    (Scenario.after_first_win, Failure InvalidOwner) ∧
  owner (execute (Scenario.at_ Scenario.deployer 0 (Scenario.start_of 101))
           (TransferOwnership Scenario.bob) Scenario.after_first_win).1 = Scenario.bob ∧
  execute (Scenario.at_ Scenario.alice 0 (Scenario.start_of 101))
    (TransferOwnership Scenario.alice) Scenario.after_first_win =
    (Scenario.after_first_win, Failure OnlyOwner).
Proof.
  destruct owner_never_null as (Hnull & _ & Htransfer & Hother).
  split; [apply Hnull; scenario_reachable|].
  split; [apply Htransfer; by vm_compute|].
  split; [apply Htransfer; by vm_compute|].
  apply Hother. by vm_compute.
Defined.

(** ** Settlement: frame *)

(** C9. A successful [confirmPrediction(day)] by account [a] changes only
    [a]'s points, [a]'s last outcome and the [claimed] flag of [a]'s forecast
    for that day: the owner, [lastPriceDay], every reference record, every
    other forecast, the other four fields of that forecast, and the ledger
    entries of every other account are as before. *)
Theorem confirm_frame ctx day s s' log :
  execute ctx (ConfirmPrediction day) s = (s', Success log) →
  owner s' = owner s ∧
  lastPriceDay s' = lastPriceDay s ∧
  _dailyPrices s' = _dailyPrices s ∧
  (∀ ptr, ptr ≠ (msg_sender ctx, day) → _predictions s' !! ptr = _predictions s !! ptr) ∧
  (Prediction.price (predictions_at s' (msg_sender ctx, day)) =
     Prediction.price (predictions_at s (msg_sender ctx, day)) ∧
   Prediction.direction (predictions_at s' (msg_sender ctx, day)) =
     Prediction.direction (predictions_at s (msg_sender ctx, day)) ∧
   Prediction.stake (predictions_at s' (msg_sender ctx, day)) =
     Prediction.stake (predictions_at s (msg_sender ctx, day)) ∧
   Prediction.submittedAt (predictions_at s' (msg_sender ctx, day)) =
     Prediction.submittedAt (predictions_at s (msg_sender ctx, day)) ∧
   Prediction.claimed (predictions_at s' (msg_sender ctx, day)) = true) ∧
  (∀ b, b ≠ msg_sender ctx →
        getPoints s' b = getPoints s b ∧ getLastResult s' b = getLastResult s b).
Proof.
  intros Hok. destruct (confirm_success_inv _ _ _ _ _ Hok) as [-> _].
  split; [done|]. split; [done|]. split; [done|]. split; [|split].
  - intros ptr Hptr. unfold settled; simpl. by rewrite lookup_insert_ne.
  - rewrite predictions_at_settled. by case_decide.
  - intros b Hb. unfold getPoints, getLastResult, settled; simpl.
    by rewrite !lookup_insert_ne.
Qed.

Lemma confirm_frame_witness :
  _dailyPrices Scenario.after_first_win = _dailyPrices Scenario.before_first_win ∧
  Prediction.stake (predictions_at Scenario.after_first_win (Scenario.alice, 100)) =
    Scenario.big_stake.
Proof.
  destruct (confirm_frame (Scenario.at_ Scenario.alice 0 (Scenario.start_of 101)) 100
              Scenario.before_first_win Scenario.after_first_win
              [PredictionConfirmed Scenario.alice 100 Scenario.big_stake])
    as (_ & _ & Hrecords & _ & (_ & _ & Hstake & _) & _); [by vm_compute|].
  split; [exact Hrecords|]. etrans; [exact Hstake | by vm_compute].
Defined.

(** * Further properties of the contract *)

Ltac falsify_by_guard :=
  match goal with
  | H : _ < _ |- _ => exfalso; lia
  | H : _ ≤ _ |- _ => exfalso; lia
  end.

(** A property kept by every transaction from reachable states holds along
    every history. *)
Lemma run_inv (P : Storage → Prop) :
  (∀ ctx s c s', reachable s → P s → step ctx s c s' → P s') →
  ∀ txs s, reachable s → P s → P (run txs s).
Proof.
  intros Hstep txs. induction txs as [|[ctx c] txs IH]; intros s Hs HP; simpl; [done|].
  apply IH; [by constructor|].
  eapply Hstep; [exact Hs | exact HP | apply execute_step].
Qed.

(** ** Periods *)

(** X1. [getCurrentDay] is the index of the 86400-second window that contains
    the block timestamp, and it never decreases as time passes. *)
Theorem getCurrentDay_window :
  (∀ ctx,
     getCurrentDay ctx * one_days ≤ block_timestamp ctx <
       (getCurrentDay ctx + 1) * one_days) ∧
  (∀ ctx ctx',
     block_timestamp ctx ≤ block_timestamp ctx' →
     getCurrentDay ctx ≤ getCurrentDay ctx').
Proof.
  split.
  - intros ctx. unfold getCurrentDay, one_days.
    assert (86400 ≠ 0) as Hnz by done.
    pose proof (N.div_mod (block_timestamp ctx) 86400 Hnz).
    pose proof (N.mod_lt (block_timestamp ctx) 86400 Hnz).
    generalize dependent (block_timestamp ctx / 86400).
    generalize dependent (block_timestamp ctx mod 86400). intros; lia.
  - intros ctx ctx' Hle. unfold getCurrentDay, one_days.
    by apply N.Div0.div_le_mono.
Qed.

Lemma getCurrentDay_window_witness :
  getCurrentDay (Scenario.at_ Scenario.alice 0 (Scenario.start_of 100 + 60)) ≤
  getCurrentDay (Scenario.at_ Scenario.alice 0 (Scenario.start_of 101)).
Proof. apply (proj2 getCurrentDay_window). by vm_compute. Defined.

(** ** The reference registry *)

Lemma records_well_formed s :
  reachable s →
  ∀ day r, _dailyPrices s !! day = Some r →
           DailyPrice.price r ≠ 0 ∧ DailyPrice.timestamp r / one_days = day.
Proof.
  revert s. reachable_induction.
  - intros ctx _ day r. by cbn.
  - intros ctx s c s' _ IH Hstep day r. destruct Hstep; try apply IH.
    unfold recorded; simpl. rewrite lookup_insert. case_decide as Hd; [|apply IH].
    intros [= <-]. by subst day.
Qed.

Lemma latest_record_exists s :
  reachable s → lastPriceDay s ≠ 0 → is_Some (_dailyPrices s !! lastPriceDay s).
Proof.
  revert s. reachable_induction.
  - intros ctx _. by cbn.
  - intros ctx s c s' _ IH Hstep. destruct Hstep; try apply IH.
    intros _. unfold recorded; simpl. rewrite lookup_insert_eq. by eexists.
Qed.

(** X2. In every reachable state each stored reference record has a non-zero
    price, a timestamp that lies in the day it is stored under, and a day in
    [1 .. lastPriceDay]; [getLatestPrice] returns the record of
    [lastPriceDay], which exists as soon as [lastPriceDay] is not 0, and
    (0, 0, 0) before the first write. *)
Theorem reference_records_well_formed s :
  reachable s →
  (∀ day r,
     _dailyPrices s !! day = Some r →
     DailyPrice.price r ≠ 0 ∧
     DailyPrice.timestamp r / one_days = day ∧
     0 < day ≤ lastPriceDay s) ∧
  (lastPriceDay s = 0 → _dailyPrices s = ∅ ∧ getLatestPrice s = (0, 0, 0)) ∧
  (lastPriceDay s ≠ 0 →
   ∃ r, _dailyPrices s !! lastPriceDay s = Some r ∧
        DailyPrice.price r ≠ 0 ∧
        getLatestPrice s = (lastPriceDay s, DailyPrice.price r, DailyPrice.timestamp r)).
Proof.
  intros Hs. split; [|split].
  - intros day r Hr.
    destruct (records_well_formed s Hs _ _ Hr) as [Hp Ht].
    destruct (dailyPrices_range s Hs _ _ Hr) as [Hd _]. done.
  - intros Hlast.
    assert (_dailyPrices s = ∅) as Hempty.
    { apply map_eq. intros day. rewrite lookup_empty.
      destruct (_dailyPrices s !! day) as [r|] eqn:Hr; [|done].
      destruct (dailyPrices_range s Hs _ _ Hr). lia. }
    split; [done|].
    unfold getLatestPrice, dailyPrices_at. by rewrite Hempty, Hlast, lookup_empty.
  - intros Hlast. destruct (latest_record_exists s Hs Hlast) as [r Hr].
    exists r. split; [done|]. split; [by apply (records_well_formed s Hs _ _ Hr)|].
    unfold getLatestPrice, dailyPrices_at. by rewrite Hr.
Qed.

Lemma reference_records_well_formed_witness :
  getLatestPrice Scenario.deployed = (0, 0, 0) ∧
  ∃ r, _dailyPrices Scenario.before_second_win !! 101 = Some r ∧ DailyPrice.price r ≠ 0.
Proof.
  split.
  - apply (reference_records_well_formed Scenario.deployed);
      [apply reachable_deploy; discriminate | by vm_compute].
  - destruct (reference_records_well_formed Scenario.before_second_win) as (_ & _ & Hlast);
      [scenario_reachable|].
    destruct Hlast as (r & Hr & Hp & _); [by vm_compute|].
    exists r. split; [exact Hr | exact Hp].
Defined.

Lemma step_keeps_record ctx s c s' day r :
  reachable s → step ctx s c s' →
  _dailyPrices s !! day = Some r → _dailyPrices s' !! day = Some r.
Proof.
  intros Hs Hstep Hr. destruct Hstep; try done.
  unfold recorded; simpl. rewrite lookup_insert_ne; [done|].
  destruct (dailyPrices_range s Hs _ _ Hr). lia.
Qed.

(** X3. A reference record is written once and for all: when a reachable
    state has a record for a day, no sequence of calls, by anyone, changes or
    removes it. *)
Theorem reference_record_immutable s day r txs :
  reachable s →
  _dailyPrices s !! day = Some r →
  _dailyPrices (run txs s) !! day = Some r ∧
  getDailyPrice (run txs s) day = (DailyPrice.price r, DailyPrice.timestamp r).
Proof.
  intros Hs Hr.
  assert (_dailyPrices (run txs s) !! day = Some r) as Hkeep.
  { revert s Hs Hr. apply (run_inv (λ s, _dailyPrices s !! day = Some r)).
    intros ctx s c s' Hs Hr Hstep. by eapply step_keeps_record. }
  split; [done|]. unfold getDailyPrice, dailyPrices_at. by rewrite Hkeep.
Qed.

Lemma reference_record_immutable_witness :
  getDailyPrice
    (run [(Scenario.at_ Scenario.deployer 0 (Scenario.start_of 100 + 7200), UpdateDailyPrice 1);
          (Scenario.at_ Scenario.deployer 0 (Scenario.start_of 101), UpdateDailyPrice 70000)]
       Scenario.before_first_win) 100 = (64000, Scenario.start_of 100 + 60).
Proof.
  apply (reference_record_immutable Scenario.before_first_win 100
           (DailyPrice.mk 64000 (Scenario.start_of 100 + 60)));
    [scenario_reachable | by vm_compute].
Defined.

Lemma step_keeps_gap ctx s c s' day :
  step ctx s c s' →
  day ≤ lastPriceDay s ∧ _dailyPrices s !! day = None →
  day ≤ lastPriceDay s' ∧ _dailyPrices s' !! day = None.
Proof.
  intros Hstep [Hday Hnone]. destruct Hstep; try done.
  unfold recorded; simpl. split; [lia|]. rewrite lookup_insert_ne; [done | lia].
Qed.

Lemma run_keeps_gap txs s day :
  day ≤ lastPriceDay s ∧ _dailyPrices s !! day = None →
  day ≤ lastPriceDay (run txs s) ∧ _dailyPrices (run txs s) !! day = None.
Proof.
  revert s. induction txs as [|[ctx c] txs IH]; intros s Hgap; simpl; [done|].
  apply IH. eapply step_keeps_gap; [apply execute_step | done].
Qed.

(** X4. A day that was skipped stays skipped: if no record exists for a day
    that is not after [lastPriceDay], then after any sequence of calls there
    is still no record for it, and every confirmation for that day fails.
    The forecasts of a day whose price the owner did not record during that
    day can never be settled. *)
Theorem skipped_day_never_settles s day txs :
  day ≤ lastPriceDay s →
  _dailyPrices s !! day = None →
  _dailyPrices (run txs s) !! day = None ∧
  ∀ ctx, ∃ e, execute ctx (ConfirmPrediction day) (run txs s) = (run txs s, Failure e).
Proof.
  intros Hday Hnone.
  destruct (run_keeps_gap txs s day (conj Hday Hnone)) as [_ Hgap].
  split; [done|]. intros ctx.
  apply confirm_needs_elapsed_period_and_record. by right.
Qed.

Lemma skipped_day_never_settles_witness :
  ∃ e, execute (Scenario.at_ Scenario.alice 0 (Scenario.start_of 105)) (ConfirmPrediction 99)
         (run [(Scenario.at_ Scenario.deployer 0 (Scenario.start_of 104), UpdateDailyPrice 99)]
            Scenario.before_first_win) =
       (run [(Scenario.at_ Scenario.deployer 0 (Scenario.start_of 104), UpdateDailyPrice 99)]
            Scenario.before_first_win, Failure e).
Proof.
  apply (skipped_day_never_settles Scenario.before_first_win 99); by vm_compute.
Defined.

(** ** The forecast registry *)

(** X5. [submitPrediction] succeeds whenever the stake is between 1 and
    2^64 - 1, the caller has no forecast for the current day and the input
    proof is accepted.  It then stores exactly what was sent: the metadata of
    the caller's forecast for the day reads (msg.value, block.timestamp,
    false) (the cast to [uint64] loses nothing), the encrypted fields are the
    admitted inputs, and one [PredictionSubmitted] event reports them.  No
    other forecast, no reference record, no ledger entry, and neither [owner]
    nor [lastPriceDay] changes. *)
Theorem submit_stores_forecast ctx p d s :
  0 < msg_value ctx ≤ uint64_max →
  Prediction.stake (predictions_at s (msg_sender ctx, getCurrentDay ctx)) = 0 →
  let s' := (execute ctx (SubmitPrediction p d true) s).1 in
  (execute ctx (SubmitPrediction p d true) s).2 =
    Success [PredictionSubmitted (msg_sender ctx) (getCurrentDay ctx) (msg_value ctx)
               (block_timestamp ctx)] ∧
  getPredictionMetadata s' (msg_sender ctx) (getCurrentDay ctx) =
    (msg_value ctx, block_timestamp ctx, false) ∧
  getPredictionEncrypted s' (msg_sender ctx) (getCurrentDay ctx) = (p, d) ∧
  (∀ ptr, ptr ≠ (msg_sender ctx, getCurrentDay ctx) →
          _predictions s' !! ptr = _predictions s !! ptr) ∧
  owner s' = owner s ∧ lastPriceDay s' = lastPriceDay s ∧
  _dailyPrices s' = _dailyPrices s ∧ _points s' = _points s ∧
  _lastResult s' = _lastResult s.
Proof.
  intros [Hpos Hmax] Hfree s'. subst s'.
  unfold execute, dispatch. rewrite submitPrediction_eq, Hfree.
  assert ((msg_value ctx =? 0) = false) as -> by (apply N.eqb_neq; lia).
  assert ((uint64_max <? msg_value ctx) = false) as -> by (by apply N.ltb_ge).
  simpl. rewrite (uint64_cast_small _ Hmax).
  split; [done|].
  unfold getPredictionMetadata, getPredictionEncrypted.
  rewrite predictions_at_submitted. case_decide; [|done]. simpl.
  rewrite (uint64_cast_small _ Hmax).
  split; [done|]. split; [done|]. split; [|done].
  intros ptr Hptr. by rewrite !lookup_insert_ne.
Qed.

Lemma submit_stores_forecast_witness :
  getPredictionMetadata Scenario.after_submit Scenario.alice 100 =
    (50, Scenario.start_of 100, false).
Proof.
  apply (submit_stores_forecast (Scenario.at_ Scenario.alice 50 (Scenario.start_of 100))
           63000 1 Scenario.deployed); by vm_compute.
Defined.

Lemma step_keeps_forecast ctx s c s' ptr :
  step ctx s c s' →
  Prediction.stake (predictions_at s ptr) ≠ 0 →
  Prediction.set_claimed false (predictions_at s' ptr) =
    Prediction.set_claimed false (predictions_at s ptr) ∧
  (Prediction.claimed (predictions_at s ptr) = true →
   Prediction.claimed (predictions_at s' ptr) = true).
Proof.
  destruct 1; intros Hstake; try done.
  - rewrite predictions_at_submitted. case_decide; [by subst ptr | done].
  - rewrite predictions_at_settled. case_decide; [|done].
    split; [done|]. by intros _.
Qed.

Lemma run_keeps_forecast txs s ptr :
  Prediction.stake (predictions_at s ptr) ≠ 0 →
  Prediction.set_claimed false (predictions_at (run txs s) ptr) =
    Prediction.set_claimed false (predictions_at s ptr) ∧
  (Prediction.claimed (predictions_at s ptr) = true →
   Prediction.claimed (predictions_at (run txs s) ptr) = true).
Proof.
  revert s. induction txs as [|[ctx c] txs IH]; intros s Hstake; simpl; [done|].
  pose proof (execute_step ctx c s) as Hstep.
  destruct (step_keeps_forecast _ _ _ _ ptr Hstep Hstake) as [Heq1 Hcl1].
  assert (Prediction.stake (predictions_at (execute ctx c s).1 ptr) ≠ 0) as Hstake'.
  { by rewrite (step_keeps_stake _ _ _ _ ptr Hstep Hstake). }
  destruct (IH _ Hstake') as [Heq2 Hcl2].
  split; [by rewrite Heq2 | by intros H; apply Hcl2, Hcl1].
Qed.

(** X6. A forecast is written once: as soon as a key holds a forecast (stake
    not 0), no sequence of calls, by anyone, changes its encrypted target, its
    encrypted direction, its stake or its submission time, and a settled
    forecast is never unsettled. *)
Theorem forecast_immutable s ptr txs :
  Prediction.stake (predictions_at s ptr) ≠ 0 →
  let p := predictions_at s ptr in
  let p' := predictions_at (run txs s) ptr in
  Prediction.price p' = Prediction.price p ∧
  Prediction.direction p' = Prediction.direction p ∧
  Prediction.stake p' = Prediction.stake p ∧
  Prediction.submittedAt p' = Prediction.submittedAt p ∧
  (Prediction.claimed p = true → Prediction.claimed p' = true).
Proof.
  intros Hstake p p'. subst p p'.
  destruct (run_keeps_forecast txs s ptr Hstake) as [Heq Hclaimed].
  injection Heq as Hp Hd Hst Hsub. done.
Qed.

Lemma forecast_immutable_witness :
  Prediction.stake
    (predictions_at (run Scenario.second_setup Scenario.after_first_win) (Scenario.alice, 100)) =
  Prediction.stake (predictions_at Scenario.after_first_win (Scenario.alice, 100)).
Proof.
  destruct (forecast_immutable Scenario.after_first_win (Scenario.alice, 100)
              Scenario.second_setup) as (_ & _ & Hstake & _); [by vm_compute|].
  exact Hstake.
Defined.

Lemma predictions_at_constructor ctx ptr :
  predictions_at (constructor ctx) ptr = Prediction.zero.
Proof. unfold predictions_at, constructor; simpl. by rewrite lookup_empty. Qed.

(** X7. In every reachable state a forecast is filed under the day it was
    submitted on, with a stake that fits 64 bits; a key without a stake reads
    as the all-zero struct; and a settled forecast has a stake and a
    reference record for its day. *)
Theorem forecasts_well_formed s :
  reachable s →
  ∀ a day,
    let p := predictions_at s (a, day) in
    Prediction.stake p ≤ uint64_max ∧
    (Prediction.stake p ≠ 0 → Prediction.submittedAt p / one_days = day) ∧
    (Prediction.stake p = 0 → p = Prediction.zero) ∧
    (Prediction.claimed p = true →
     Prediction.stake p ≠ 0 ∧ is_Some (_dailyPrices s !! day)).
Proof.
  revert s. reachable_induction.
  - intros ctx _ a d. cbv zeta. rewrite predictions_at_constructor. simpl.
    split; [by vm_compute|]. done.
  - intros ctx s c s' Hs IH Hstep a d. destruct Hstep; try apply IH.
    + destruct (IH a d) as (Hmax & Hday & Hzero & Hclaimed).
      split; [done|]. split; [done|]. split; [done|].
      intros Hc. destruct (Hclaimed Hc) as [Hstake [r Hr]]. split; [done|].
      exists r. by eapply step_keeps_record; [| constructor |].
    + cbv zeta. rewrite predictions_at_submitted. case_decide as Hptr; [|apply IH].
      injection Hptr as <- <-. simpl.
      destruct H as [Hpos Hmax]. rewrite (uint64_cast_small _ Hmax).
      split; [done|]. split; [done|]. split; [lia | done].
    + cbv zeta. rewrite predictions_at_settled. case_decide as Hptr; [|apply IH].
      injection Hptr as <- <-. simpl.
      destruct (IH (msg_sender ctx) day) as (Hmax & Hday & Hzero & _).
      split; [done|]. split; [done|]. split; [done|].
      intros _. split; [done|].
      unfold dailyPrices_at in H2.
      destruct (_dailyPrices s !! day) as [r|]; [by eexists | by cbn in H2].
Qed.

Lemma forecasts_well_formed_witness :
  Prediction.submittedAt (predictions_at Scenario.after_first_win (Scenario.alice, 100))
    / one_days = 100.
Proof.
  apply (forecasts_well_formed Scenario.after_first_win); [scenario_reachable | by vm_compute].
Defined.

(** ** The rewards ledger *)

Lemma ledger_entries_inv s :
  reachable s →
  ∀ a, (is_Some (getPoints s a) ↔ is_Some (getLastResult s a)) ∧
       (is_Some (getPoints s a) ↔
        ∃ day, Prediction.claimed (predictions_at s (a, day)) = true).
Proof.
  revert s. reachable_induction.
  - intros ctx _ a. unfold getPoints, getLastResult; simpl. rewrite !lookup_empty.
    split; [done|]. split; [by intros [? ?]|].
    intros [day Hc]. by rewrite predictions_at_constructor in Hc.
  - intros ctx s c s' Hs IH Hstep a. destruct Hstep; try apply IH.
    + destruct (IH a) as [Hboth Hset]. split; [exact Hboth|].
      change (getPoints (submitted ctx p d s) a) with (getPoints s a).
      rewrite Hset. split; intros [day Hc]; exists day.
      * rewrite predictions_at_submitted. case_decide as Hptr; [|done].
        rewrite <- Hptr in Hc. by destruct (claimed_has_stake s Hs _ Hc).
      * rewrite predictions_at_submitted in Hc. by case_decide.
    + destruct (IH a) as [Hboth Hset].
      unfold getPoints, getLastResult, settled in *; simpl.
      destruct (decide (msg_sender ctx = a)) as [<-|Hne].
      * rewrite !lookup_insert_eq. split; [done|]. split; [|by eexists].
        intros _. exists day.
        change (Prediction.claimed (predictions_at (settled ctx day s) (msg_sender ctx, day)) = true).
        apply settled_is_claimed.
      * rewrite !lookup_insert_ne by done. split; [exact Hboth|].
        rewrite Hset. split; intros [d Hc]; exists d.
        -- change (Prediction.claimed (predictions_at (settled ctx day s) (a, d)) = true).
           rewrite predictions_at_settled. by case_decide.
        -- change (Prediction.claimed (predictions_at (settled ctx day s) (a, d)) = true) in Hc.
           rewrite predictions_at_settled in Hc. case_decide as Hptr; [|done].
           by injection Hptr.
Qed.

(** X8. In every reachable state the two ledger entries of an account exist
    together, and they exist exactly when the account has settled at least
    one forecast: before that, [getPoints] and [getLastResult] return the zero
    handle (which the clients show as 0 points and no result). *)
Theorem ledger_entries_iff_settled s a :
  reachable s →
  (is_Some (getPoints s a) ↔ is_Some (getLastResult s a)) ∧
  (is_Some (getPoints s a) ↔
   ∃ day, Prediction.claimed (predictions_at s (a, day)) = true) ∧
  ((∀ day, Prediction.claimed (predictions_at s (a, day)) = false) →
   getPoints s a = None ∧ getLastResult s a = None ∧ pointsOf s a = 0).
Proof.
  intros Hs. destruct (ledger_entries_inv s Hs a) as [Hboth Hset].
  split; [exact Hboth|]. split; [exact Hset|].
  intros Hnone.
  assert (getPoints s a = None) as Hp.
  { destruct (getPoints s a) as [v|] eqn:Hv; [|done].
    destruct (proj1 Hset) as [day Hc]; [by eexists|]. by rewrite Hnone in Hc. }
  split; [done|]. split.
  - destruct (getLastResult s a) as [v|] eqn:Hv; [|done].
    destruct (proj2 Hboth) as [w Hw]; [by eexists|]. by rewrite Hp in Hw.
  - unfold pointsOf. by rewrite Hp.
Qed.

Lemma ledger_entries_iff_settled_witness :
  is_Some (getPoints Scenario.after_first_win Scenario.alice) ↔
  is_Some (getLastResult Scenario.after_first_win Scenario.alice).
Proof.
  apply (ledger_entries_iff_settled Scenario.after_first_win Scenario.alice).
  scenario_reachable.
Defined.

Lemma didWin_iff p ref :
  didWin p ref = true ↔
  Prediction.direction p = 1 ∧ Prediction.price p < ref ∨
  Prediction.direction p = 2 ∧ ref < Prediction.price p.
Proof.
  unfold didWin, FHE.or, FHE.and, FHE.eq, FHE.gt, FHE.lt, FHE.asEuint8, FHE.asEuint64.
  rewrite orb_true_iff, !andb_true_iff, !N.eqb_eq, !N.ltb_lt. done.
Qed.

(** X9. The complete outcome of a settlement.  For an eligible confirmation
    in a reachable state the last outcome becomes true exactly when the
    direction is 1 and the target is below the reference, or the direction is
    2 and the target is above it.  In every other case (the wrong side, a tie,
    or a direction other than 1 and 2, which [submitPrediction] accepts) the
    last outcome becomes false and the points stay as they are. *)
Theorem confirm_outcome ctx day s :
  reachable s → eligible ctx day s →
  let a := msg_sender ctx in
  let p := predictions_at s (a, day) in
  let reference := DailyPrice.price (dailyPrices_at s day) in
  let s' := (execute ctx (ConfirmPrediction day) s).1 in
  ∃ won,
    getLastResult s' a = Some won ∧
    (won = true ↔
     Prediction.direction p = 1 ∧ Prediction.price p < reference ∨
     Prediction.direction p = 2 ∧ reference < Prediction.price p) ∧
    (won = false → pointsOf s' a = pointsOf s a) ∧
    (Prediction.direction p ≠ 1 → Prediction.direction p ≠ 2 → won = false).
Proof.
  intros Hs Hel a p reference s'. subst s'.
  rewrite (eligible_confirms _ _ _ Hs Hel). simpl.
  exists (didWin p reference).
  rewrite getLastResult_settled, pointsOf_settled.
  destruct (decide (msg_sender ctx = a)) as [_|Hne]; [|done].
  fold p. fold reference.
  split; [done|]. split; [apply didWin_iff|]. split.
  - intros ->. rewrite awarded_lost. unfold FHE.add. rewrite N.add_0_r.
    apply N.mod_small. by apply points_in_range.
  - intros H1 H2. destruct (didWin p reference) eqn:Hw; [|done].
    apply didWin_iff in Hw. by destruct Hw as [[Hd _]|[Hd _]].
Qed.

Lemma confirm_outcome_witness :
  ∃ won,
    getLastResult
      (execute (Scenario.at_ Scenario.alice 0 (Scenario.start_of 101))
         (ConfirmPrediction 100) Scenario.before_first_win).1 Scenario.alice = Some won.
Proof.
  destruct (confirm_outcome (Scenario.at_ Scenario.alice 0 (Scenario.start_of 101)) 100
              Scenario.before_first_win) as (won & Hres & _);
    [scenario_reachable | scenario_eligible |].
  exists won. exact Hres.
Defined.

(** ** Who can change what *)

(** X10. Only the owner changes the ownership and the reference registry: a
    transaction of any kind sent by another account leaves [owner],
    [lastPriceDay] and every reference record as they are. *)
Theorem registry_changes_only_by_owner ctx c s :
  msg_sender ctx ≠ owner s →
  owner (execute ctx c s).1 = owner s ∧
  lastPriceDay (execute ctx c s).1 = lastPriceDay s ∧
  _dailyPrices (execute ctx c s).1 = _dailyPrices s.
Proof.
  intros Hne. pose proof (execute_step ctx c s) as Hstep.
  destruct Hstep; done.
Qed.

Lemma registry_changes_only_by_owner_witness :
  lastPriceDay (execute (Scenario.at_ Scenario.bob 0 (Scenario.start_of 101))
                  (UpdateDailyPrice 1) Scenario.after_first_win).1 = 100.
Proof.
  etrans; [apply registry_changes_only_by_owner|]; by vm_compute.
Defined.

(** X11. Accounts are isolated: a transaction sent by one account, the owner
    included, changes no forecast and no ledger entry of any other account. *)
Theorem other_accounts_untouched ctx c s b :
  msg_sender ctx ≠ b →
  (∀ day, _predictions (execute ctx c s).1 !! (b, day) = _predictions s !! (b, day)) ∧
  getPoints (execute ctx c s).1 b = getPoints s b ∧
  getLastResult (execute ctx c s).1 b = getLastResult s b.
Proof.
  intros Hne. pose proof (execute_step ctx c s) as Hstep.
  destruct Hstep; try done.
  - split; [|done]. intros day. unfold submitted; simpl.
    rewrite !lookup_insert_ne; [done|..]; congruence.
  - unfold getPoints, getLastResult, settled; simpl.
    rewrite !lookup_insert_ne by done. split; [|done].
    intros d. rewrite lookup_insert_ne; [done | congruence].
Qed.

Lemma other_accounts_untouched_witness :
  getPoints Scenario.after_first_win Scenario.bob = getPoints Scenario.before_first_win Scenario.bob.
Proof.
  apply (other_accounts_untouched (Scenario.at_ Scenario.alice 0 (Scenario.start_of 101))
           (ConfirmPrediction 100) Scenario.before_first_win Scenario.bob).
  by vm_compute.
Defined.

(** X12. Handing over the ownership is complete: after a successful
    [transferOwnership(newOwner)] to another account, every later
    [transferOwnership] or [updateDailyPrice] of the previous owner fails with
    [OnlyOwner], while the new owner records the price of any day after
    [lastPriceDay] and may transfer the ownership in turn. *)
Theorem ownership_handover ctx newOwner s s' log :
  execute ctx (TransferOwnership newOwner) s = (s', Success log) →
  newOwner ≠ msg_sender ctx →
  (∀ ctx', msg_sender ctx' = msg_sender ctx →
     (∀ next, execute ctx' (TransferOwnership next) s' = (s', Failure OnlyOwner)) ∧
     (∀ price, execute ctx' (UpdateDailyPrice price) s' = (s', Failure OnlyOwner))) ∧
  (∀ ctx', msg_sender ctx' = newOwner →
     (∀ price, price ≠ 0 → lastPriceDay s' < getCurrentDay ctx' →
        execute ctx' (UpdateDailyPrice price) s' =
          (recorded ctx' price s',
           Success [PriceUpdated (getCurrentDay ctx') price (block_timestamp ctx')])) ∧
     (∀ next, next ≠ address_zero →
        owner (execute ctx' (TransferOwnership next) s').1 = next)).
Proof.
  unfold execute at 1. simpl. rewrite transferOwnership_eq.
  destruct (msg_sender ctx =? owner s) eqn:Ho; simpl; [|done].
  destruct (newOwner =? address_zero) eqn:Hn; [done|].
  intros [= <- _] Hother. split.
  - intros ctx' Hsame. apply not_owner_rejected. simpl. congruence.
  - intros ctx' Hnew. split.
    + intros price Hp Hday. unfold execute, dispatch.
      rewrite updateDailyPrice_eq. simpl. rewrite Hnew, N.eqb_refl. simpl.
      apply N.eqb_neq in Hp. apply N.leb_gt in Hday. simpl in Hday.
      by rewrite Hp, Hday.
    + intros next Hnext.
      destruct (transfer_by_owner ctx' next (set_owner newOwner s)) as [_ Hok]; [done|].
      by rewrite (Hok Hnext).
Qed.

Lemma ownership_handover_witness :
  let s' := (execute (Scenario.at_ Scenario.deployer 0 (Scenario.start_of 101))
               (TransferOwnership Scenario.bob) Scenario.after_first_win).1 in
  execute (Scenario.at_ Scenario.deployer 0 (Scenario.start_of 101 + 5))
    (UpdateDailyPrice 64000) s' = (s', Failure OnlyOwner).
Proof.
  intros s'.
  destruct (ownership_handover (Scenario.at_ Scenario.deployer 0 (Scenario.start_of 101))
              Scenario.bob Scenario.after_first_win s'
              [OwnerTransferred Scenario.deployer Scenario.bob]) as [Hold _];
    [by vm_compute | by vm_compute |].
  apply (Hold (Scenario.at_ Scenario.deployer 0 (Scenario.start_of 101 + 5))).
  by vm_compute.
Defined.

(** ** Settlement cannot be blocked, and can be gamed *)

Lemma step_keeps_open ctx s c s' a day :
  step ctx s c s' →
  confirms a day (ctx, c) = false →
  Prediction.stake (predictions_at s (a, day)) ≠ 0 →
  Prediction.claimed (predictions_at s (a, day)) = false →
  Prediction.claimed (predictions_at s' (a, day)) = false.
Proof.
  destruct 1; intros Hother Hstake Hopen; try done.
  - rewrite predictions_at_submitted. case_decide as Hptr; [|done].
    by rewrite Hptr in H0.
  - rewrite predictions_at_settled. case_decide as Hptr; [|done].
    injection Hptr as Ha Hd. unfold confirms in Hother. simpl in Hother.
    by rewrite Ha, Hd, !N.eqb_refl in Hother.
Qed.

Lemma run_keeps_eligible txs s ctx day :
  reachable s → eligible ctx day s →
  forallb (λ tx, negb (confirms (msg_sender ctx) day tx)) txs = true →
  eligible ctx day (run txs s) ∧
  _dailyPrices (run txs s) !! day = _dailyPrices s !! day.
Proof.
  revert s. induction txs as [|[ctx1 c] txs IH]; intros s Hs Hel Hothers; simpl; [done|].
  simpl in Hothers. apply andb_true_iff in Hothers as [Hother Hothers].
  apply negb_true_iff in Hother.
  destruct Hel as (Hstake & Hopen & Hday & [r Hr]).
  pose proof (execute_step ctx1 c s) as Hstep.
  pose proof (step_keeps_record _ _ _ _ _ _ Hs Hstep Hr) as Hr'.
  destruct (IH (execute ctx1 c s).1) as [Hel' Hrec']; [by constructor | | done |].
  - split; [by rewrite (step_keeps_stake _ _ _ _ _ Hstep Hstake)|].
    split; [by eapply step_keeps_open|]. split; [done | by eexists].
  - split; [done|]. by rewrite Hrec', Hr', Hr.
Qed.

(** X13. Nobody can block or alter a pending settlement.  Once a forecast is
    eligible for confirmation in a reachable state, it stays eligible at any
    later time, whatever calls the owner or other accounts (or the account
    itself, short of confirming that very day) make in between, and the
    outcome the confirmation will record is the same. *)
Theorem pending_settlement_is_fixed s ctx day txs ctx' :
  reachable s → eligible ctx day s →
  forallb (λ tx, negb (confirms (msg_sender ctx) day tx)) txs = true →
  msg_sender ctx' = msg_sender ctx →
  block_timestamp ctx ≤ block_timestamp ctx' →
  eligible ctx' day (run txs s) ∧
  didWin (predictions_at (run txs s) (msg_sender ctx, day))
         (DailyPrice.price (dailyPrices_at (run txs s) day)) =
  didWin (predictions_at s (msg_sender ctx, day))
         (DailyPrice.price (dailyPrices_at s day)).
Proof.
  intros Hs Hel Hothers Hsender Htime.
  destruct (run_keeps_eligible txs s ctx day Hs Hel Hothers)
    as [(Hstake & Hopen & Hday & Hrec) Hsame].
  split.
  - unfold eligible. rewrite Hsender. split; [done|]. split; [done|]. split; [|done].
    eapply N.lt_le_trans; [exact Hday|].
    unfold getCurrentDay. by apply N.Div0.div_le_mono.
  - destruct Hel as (Hstake0 & _).
    destruct (run_keeps_forecast txs s (msg_sender ctx, day) Hstake0) as [Heq _].
    injection Heq as Hp Hd _ _.
    unfold didWin, dailyPrices_at. by rewrite Hp, Hd, Hsame.
Qed.

Lemma pending_settlement_is_fixed_witness :
  eligible (Scenario.at_ Scenario.alice 0 (Scenario.start_of 105)) 100
    (run [(Scenario.at_ Scenario.deployer 0 (Scenario.start_of 101), UpdateDailyPrice 1);
          (Scenario.at_ Scenario.deployer 0 (Scenario.start_of 102),
           TransferOwnership Scenario.bob)]
       Scenario.before_first_win).
Proof.
  apply (pending_settlement_is_fixed Scenario.before_first_win
           (Scenario.at_ Scenario.alice 0 (Scenario.start_of 101)) 100);
    [scenario_reachable | scenario_eligible | by vm_compute | by vm_compute | by vm_compute].
Defined.

(** X14. [submitPrediction] does not look at the reference registry: a
    forecast is accepted after the price of its day has been recorded, and a
    direction-1 forecast placed just below the recorded price then wins.  Once
    the day has elapsed its confirmation sets the last outcome to true and
    credits the stake. *)
Theorem forecast_after_reference_wins s ctx ctx' r :
  reachable s →
  _dailyPrices s !! getCurrentDay ctx = Some r →
  0 < msg_value ctx ≤ uint64_max →
  Prediction.stake (predictions_at s (msg_sender ctx, getCurrentDay ctx)) = 0 →
  msg_sender ctx' = msg_sender ctx →
  getCurrentDay ctx < getCurrentDay ctx' →
  let s1 := (execute ctx (SubmitPrediction (DailyPrice.price r - 1) 1 true) s).1 in
  let s2 := (execute ctx' (ConfirmPrediction (getCurrentDay ctx)) s1).1 in
  getLastResult s2 (msg_sender ctx) = Some true ∧
  pointsOf s2 (msg_sender ctx) = (pointsOf s (msg_sender ctx) + msg_value ctx) mod 2 ^ 64.
Proof.
  intros Hs Hr [Hpos Hmax] Hfree Hsender Hlater s1 s2.
  assert (reachable s1) as Hs1 by by constructor.
  assert (s1 = submitted ctx (DailyPrice.price r - 1) 1 s) as Heq1.
  { subst s1. unfold execute, dispatch. rewrite submitPrediction_eq, Hfree.
    assert ((msg_value ctx =? 0) = false) as -> by (apply N.eqb_neq; lia).
    assert ((uint64_max <? msg_value ctx) = false) as -> by (by apply N.ltb_ge).
    done. }
  assert (predictions_at s1 (msg_sender ctx, getCurrentDay ctx) =
            Prediction.mk (DailyPrice.price r - 1) 1 (msg_value ctx)
              (block_timestamp ctx) false) as Hp.
  { rewrite Heq1, predictions_at_submitted. case_decide; [|done].
    by rewrite (uint64_cast_small _ Hmax). }
  assert (_dailyPrices s1 = _dailyPrices s) as Hrec by by rewrite Heq1.
  assert (eligible ctx' (getCurrentDay ctx) s1) as Hel.
  { unfold eligible. rewrite Hsender, Hp, Hrec, Hr. simpl.
    split; [lia|]. split; [done|]. split; [done | by eexists]. }
  subst s2. rewrite (eligible_confirms _ _ _ Hs1 Hel). simpl.
  rewrite getLastResult_settled, pointsOf_settled, Hsender.
  destruct (decide (msg_sender ctx = msg_sender ctx)) as [_|]; [|done].
  rewrite Hp. unfold dailyPrices_at. rewrite Hrec, Hr. simpl.
  destruct (records_well_formed s Hs _ _ Hr) as [Hprice _].
  rewrite didWin_above; [|done|simpl; lia].
  rewrite awarded_won. split; [done|].
  unfold FHE.add. by rewrite Heq1.
Qed.

Lemma forecast_after_reference_wins_witness :
  let ctx := Scenario.at_ Scenario.bob 1000 (Scenario.start_of 100 + 3600) in
  let ctx' := Scenario.at_ Scenario.bob 0 (Scenario.start_of 101) in
  getLastResult
    (execute ctx' (ConfirmPrediction 100)
       (execute ctx (SubmitPrediction 63999 1 true) Scenario.before_first_win).1).1
    Scenario.bob = Some true.
Proof.
  intros ctx ctx'.
  apply (forecast_after_reference_wins Scenario.before_first_win ctx ctx'
           (DailyPrice.mk 64000 (Scenario.start_of 100 + 60)));
    [scenario_reachable | by vm_compute | by vm_compute | by vm_compute
    | by vm_compute | by vm_compute].
Defined.

(** X15. Along a chronological history a day that has elapsed without a
    reference record never gets one: [updateDailyPrice] only writes the
    current day.  Every later confirmation for that day fails. *)
Theorem elapsed_day_never_recorded now txs s day :
  chronological now txs = true →
  day < now / one_days →
  _dailyPrices s !! day = None →
  _dailyPrices (run txs s) !! day = None ∧
  ∀ ctx, ∃ e, execute ctx (ConfirmPrediction day) (run txs s) = (run txs s, Failure e).
Proof.
  intros Hchrono Hday Hnone.
  assert (_dailyPrices (run txs s) !! day = None) as Hgap.
  { revert now s Hchrono Hday Hnone.
    induction txs as [|[ctx c] txs IH]; intros now s Hchrono Hday Hnone; simpl; [done|].
    simpl in Hchrono. apply andb_true_iff in Hchrono as [Hnow Hrest].
    apply N.leb_le in Hnow.
    assert (day < getCurrentDay ctx) as Hday'.
    { eapply N.lt_le_trans; [exact Hday|].
      unfold getCurrentDay. by apply N.Div0.div_le_mono. }
    apply (IH (block_timestamp ctx)); [done | done |].
    pose proof (execute_step ctx c s) as Hstep. destruct Hstep; try done.
    unfold recorded; simpl. rewrite lookup_insert_ne; [done | lia]. }
  split; [done|]. intros ctx.
  apply confirm_needs_elapsed_period_and_record. by right.
Qed.

Lemma elapsed_day_never_recorded_witness :
  _dailyPrices
    (run [(Scenario.at_ Scenario.deployer 0 (Scenario.start_of 101 + 5), UpdateDailyPrice 64000)]
       Scenario.after_submit) !! 100 = None.
Proof.
  apply (elapsed_day_never_recorded (Scenario.start_of 101)); by vm_compute.
Defined.

(** ** The web client against the contract *)

(** X16. The day the client proposes for a confirmation is the day before the
    current one, so the confirmation it sends, at the same or a later time,
    never fails with [ConfirmationTooEarly] as soon as the current day is not
    0; on day 0 the proposal is day 0 itself, which the contract cannot
    confirm during day 0. *)
Theorem fallbackDay_has_elapsed :
  (∀ ctx0 ctx s,
     0 < getCurrentDay ctx0 →
     block_timestamp ctx0 ≤ block_timestamp ctx →
     Frontend.fallbackDay (getCurrentDay ctx0) < getCurrentDay ctx ∧
     (execute ctx (ConfirmPrediction (Frontend.fallbackDay (getCurrentDay ctx0))) s).2
       ≠ Failure ConfirmationTooEarly) ∧
  (∀ ctx s,
     getCurrentDay ctx = 0 →
     ∃ e, execute ctx (ConfirmPrediction (Frontend.fallbackDay (getCurrentDay ctx))) s =
            (s, Failure e)).
Proof.
  split.
  - intros ctx0 ctx s Hpos Htime.
    assert (Frontend.fallbackDay (getCurrentDay ctx0) < getCurrentDay ctx) as Hlt.
    { unfold Frontend.fallbackDay. apply N.ltb_lt in Hpos as Hb. rewrite Hb.
      assert (getCurrentDay ctx0 ≤ getCurrentDay ctx)
        by (unfold getCurrentDay; by apply N.Div0.div_le_mono).
      lia. }
    split; [done|].
    unfold execute, dispatch. rewrite confirmPrediction_eq. cbv zeta.
    apply N.leb_gt in Hlt. rewrite Hlt.
    repeat split_if; simpl; discriminate.
  - intros ctx s Hzero. rewrite Hzero.
    apply confirm_needs_elapsed_period_and_record. left.
    rewrite Hzero. by vm_compute.
Qed.

Lemma fallbackDay_has_elapsed_witness :
  Frontend.fallbackDay (getCurrentDay (Scenario.at_ Scenario.alice 0 (Scenario.start_of 101)))
    < getCurrentDay (Scenario.at_ Scenario.alice 0 (Scenario.start_of 101 + 30)).
Proof.
  apply (proj1 fallbackDay_has_elapsed _ _ Scenario.after_first_win); by vm_compute.
Defined.

(** X17. The labels of the client agree with the contract: a forecast whose
    decrypted direction is shown as "Above" wins exactly when its target is
    below the reference, one shown as "Below" exactly when its target is above
    it, and one shown as "Unknown" never wins. *)
Theorem directionLabel_matches_didWin p ref :
  didWin p ref =
    match Frontend.directionLabel (Prediction.direction p) with
    | Frontend.Above => Prediction.price p <? ref
    | Frontend.Below => ref <? Prediction.price p
    | Frontend.Unknown => false
    end.
Proof.
  unfold Frontend.directionLabel, didWin, FHE.or, FHE.and, FHE.eq, FHE.gt, FHE.lt,
    FHE.asEuint8, FHE.asEuint64.
  destruct (Prediction.direction p =? 1) eqn:H1.
  - apply N.eqb_eq in H1. rewrite H1. simpl. by rewrite orb_false_r.
  - simpl. by destruct (Prediction.direction p =? 2).
Qed.

(** ** The points are the sum of the rewards *)

Lemma add_credit_comm (prices : gmap N DailyPrice.t) (a : N) j1 j2 z1 z2 y :
  add_credit prices a j1 z1 (add_credit prices a j2 z2 y) =
  add_credit prices a j2 z2 (add_credit prices a j1 z1 y).
Proof. unfold add_credit. lia. Qed.

Lemma credit_insert_fresh (prices : gmap N DailyPrice.t) (a : N) (m : gmap (N * N) Prediction.t) k x :
  m !! k = None →
  map_fold (add_credit prices a) 0 (<[k := x]> m) =
    credit_of prices a k x + map_fold (add_credit prices a) 0 m.
Proof.
  intros Hk. rewrite map_fold_insert_L; [done | | done].
  intros. apply add_credit_comm.
Qed.

Lemma credit_of_open (prices : gmap N DailyPrice.t) (a : N) k p :
  Prediction.claimed p = false → credit_of prices a k p = 0.
Proof. unfold credit_of. intros ->. by rewrite andb_false_r. Qed.

Lemma credit_insert (prices : gmap N DailyPrice.t) (a : N) (m : gmap (N * N) Prediction.t) k x :
  Prediction.claimed (default Prediction.zero (m !! k)) = false →
  map_fold (add_credit prices a) 0 (<[k := x]> m) =
    credit_of prices a k x + map_fold (add_credit prices a) 0 m.
Proof.
  intros Hopen. destruct (m !! k) as [old|] eqn:Hk; [|by apply credit_insert_fresh].
  simpl in Hopen.
  rewrite <- insert_delete_eq, credit_insert_fresh by apply lookup_delete_eq.
  rewrite (map_fold_delete_L (add_credit prices a) 0 k old m);
    [| intros; apply add_credit_comm | done].
  unfold add_credit at 2. by rewrite (credit_of_open _ _ k old Hopen).
Qed.

Lemma credit_ext (prices prices' : gmap N DailyPrice.t) (a : N)
    (m : gmap (N * N) Prediction.t) :
  (∀ k p, m !! k = Some p → credit_of prices a k p = credit_of prices' a k p) →
  map_fold (add_credit prices a) 0 m = map_fold (add_credit prices' a) 0 m.
Proof.
  induction m as [|k x m Hk IH] using map_ind; intros Hsame.
  - by rewrite !map_fold_empty.
  - rewrite !credit_insert_fresh by done.
    rewrite (Hsame k x) by apply lookup_insert_eq.
    rewrite IH; [done|].
    intros k' p' Hp'. apply Hsame. rewrite lookup_insert_ne; [done|].
    intros ->. by rewrite Hk in Hp'.
Qed.

Lemma claimed_has_record s :
  reachable s →
  ∀ ptr, Prediction.claimed (predictions_at s ptr) = true →
         is_Some (_dailyPrices s !! ptr.2).
Proof.
  revert s. reachable_induction.
  - intros ctx _ ptr. by rewrite predictions_at_constructor.
  - intros ctx s c s' Hs IH Hstep ptr. destruct Hstep; try apply IH.
    + intros Hc. destruct (IH ptr Hc) as [r Hr]. exists r.
      by eapply step_keeps_record; [| constructor |].
    + rewrite predictions_at_submitted. case_decide; [done | apply IH].
    + rewrite predictions_at_settled. case_decide as Hptr; [|apply IH].
      intros _. subst ptr. simpl. unfold dailyPrices_at in H2.
      destruct (_dailyPrices s !! day); [by eexists | by cbn in H2].
Qed.

Lemma predictions_submitted ctx p d s :
  _predictions (submitted ctx p d s) =
    <[(msg_sender ctx, getCurrentDay ctx) :=
        Prediction.mk p d (msg_value ctx mod 2 ^ 64) (block_timestamp ctx) false]>
      (_predictions s).
Proof.
  unfold submitted, update_prediction, predictions_at; simpl.
  rewrite !lookup_insert_eq; simpl. by rewrite !insert_insert_eq.
Qed.

(** X18. In every reachable state the points of an account are the sum,
    modulo 2^64, of the rewards of its settled forecasts, each reward being the
    stake if the forecast won against the reference of its day and 0
    otherwise. *)
Theorem points_are_sum_of_rewards s :
  reachable s → ∀ a, pointsOf s a = total_credit s a mod 2 ^ 64.
Proof.
  revert s. reachable_induction.
  - intros ctx _ a. unfold total_credit; simpl. by rewrite map_fold_empty.
  - intros ctx s c s' Hs IH Hstep a. destruct Hstep; try apply IH.
    + change (pointsOf (recorded ctx price s) a) with (pointsOf s a).
      rewrite IH. f_equal. unfold total_credit; simpl.
      apply credit_ext. intros k p Hp. unfold credit_of.
      destruct ((k.1 =? a) && Prediction.claimed p) eqn:Hc; [|done].
      apply andb_true_iff in Hc as [_ Hc].
      assert (predictions_at s k = p) as Hat by (unfold predictions_at; by rewrite Hp).
      destruct (claimed_has_record s Hs k) as [r Hr]; [by rewrite Hat|].
      destruct (dailyPrices_range s Hs _ _ Hr) as [Hrange _].
      rewrite lookup_insert_ne; [done | lia].
    + change (pointsOf (submitted ctx p d s) a) with (pointsOf s a).
      rewrite IH. f_equal. unfold total_credit.
      change (_dailyPrices (submitted ctx p d s)) with (_dailyPrices s).
      rewrite predictions_submitted, credit_insert.
      * by rewrite credit_of_open.
      * destruct (Prediction.claimed _) eqn:Hc; [|done].
        by destruct (claimed_has_stake s Hs _ Hc).
    + rewrite pointsOf_settled. unfold total_credit.
      change (_dailyPrices (settled ctx day s)) with (_dailyPrices s).
      change (_predictions (settled ctx day s)) with
        (<[(msg_sender ctx, day) :=
             Prediction.set_claimed true (predictions_at s (msg_sender ctx, day))]>
           (_predictions s)).
      rewrite credit_insert by exact H0.
      fold (total_credit s a). unfold credit_of at 1. simpl.
      case_decide as Ha.
      * subst a. rewrite N.eqb_refl. simpl.
        unfold FHE.add. rewrite IH, N.Div0.add_mod_idemp_l. f_equal.
        rewrite N.add_comm. done.
      * apply N.eqb_neq in Ha. rewrite Ha. simpl. apply IH.
Qed.

Lemma points_are_sum_of_rewards_witness :
  pointsOf Scenario.before_second_win Scenario.alice =
    total_credit Scenario.before_second_win Scenario.alice mod 2 ^ 64.
Proof. apply points_are_sum_of_rewards. scenario_reachable. Defined.

(** ** A successful price update *)

(** X19. When the owner calls [updateDailyPrice] with a non-zero price in a
    period after [lastPriceDay], the call succeeds; [getLatestPrice] and
    [getDailyPrice] of the current day then return that price with the block
    timestamp, the records of all other days are as before, and no forecast,
    no ledger entry and not the owner has changed. *)
Theorem update_records_latest ctx price s :
  msg_sender ctx = owner s → price ≠ 0 → lastPriceDay s < getCurrentDay ctx →
  let s' := (execute ctx (UpdateDailyPrice price) s).1 in
  (execute ctx (UpdateDailyPrice price) s).2 =
    Success [PriceUpdated (getCurrentDay ctx) price (block_timestamp ctx)] ∧
  getLatestPrice s' = (getCurrentDay ctx, price, block_timestamp ctx) ∧
  getDailyPrice s' (getCurrentDay ctx) = (price, block_timestamp ctx) ∧
  (∀ day, day ≠ getCurrentDay ctx → getDailyPrice s' day = getDailyPrice s day) ∧
  owner s' = owner s ∧ _predictions s' = _predictions s ∧
  _points s' = _points s ∧ _lastResult s' = _lastResult s.
Proof.
  intros Ho Hp Hday s'. subst s'.
  unfold execute, dispatch. rewrite updateDailyPrice_eq.
  apply N.eqb_eq in Ho. apply N.eqb_neq in Hp. apply N.leb_gt in Hday.
  rewrite Ho, Hp, Hday. simpl.
  split; [done|].
  unfold getLatestPrice, getDailyPrice, dailyPrices_at, recorded; simpl.
  rewrite lookup_insert_eq. simpl.
  split; [done|]. split; [done|]. split; [|done].
  intros day Hne. by rewrite lookup_insert_ne.
Qed.

Lemma update_records_latest_witness :
  getLatestPrice Scenario.before_first_win = (100, 64000, Scenario.start_of 100 + 60).
Proof.
  apply (update_records_latest
           (Scenario.at_ Scenario.deployer 0 (Scenario.start_of 100 + 60)) 64000
           (execute (Scenario.at_ Scenario.alice Scenario.big_stake (Scenario.start_of 100))
              (SubmitPrediction 63000 1 true) Scenario.deployed).1);
    by vm_compute.
Defined.
